(** * SCC reporting front end ([incl/scc/report.h])

    A shallow embedding of the logging header of the SystemC-Components
    library: the [log] level enumeration with its text conversions, the
    [ScLogger] statement builder with the logging macros, and the
    [stream_redirection] buffer.

    Conventions of the embedding.
    - [int] and [sc_verbosity] values are integers in [Z]; the code only
      compares them and divides constants by ten, so no wrap-around occurs.
    - A [std::string] is a [string]: any sequence of characters, the NUL
      character included.  Reading a [char const*] as a C string gives the
      characters before the first NUL: [c_str].
    - Where a C string is read at once (the token and the level names in
      [operator>>], the text of a logger in its destructor), it is given by
      its characters.  The category tag of a logger is kept as a pointer
      and read later: there a [char const*] is an address, and the state
      holds the character buffers alive, by address.
    - Input streams have the default format flags, as a new
      [std::istringstream] has.
    - The SystemC report handler is the sink: [report] appends its arguments
      to the list of delivered reports, and the handler's verbosity level is
      a field of the state. *)

From Stdlib Require Import ZArith Lia Bool Ascii String.
From stdpp Require Import base option list strings gmap.

Local Open Scope Z_scope.


(** ** C strings *)

Module CString.

(** The terminating character of a C string. *)
Definition NUL : ascii := Ascii.zero.

Definition is_nul (c : ascii) : bool := Ascii.eqb c NUL.

(** [s.c_str()] read as a C string: the characters of [s] up to, and
    without, its first NUL. *)
Fixpoint c_str (s : string) : string :=
  match s with
  | EmptyString => EmptyString
  | String c r => if is_nul c then EmptyString else String c (c_str r)
  end.

(** No character of [s] is NUL. *)
Fixpoint nul_free (s : string) : bool :=
  match s with
  | EmptyString => true
  | String c r => negb (is_nul c) && nul_free r
  end.

(** [strcmp] on two C strings: the sign of the first difference, characters
    compared as [unsigned char]; the end of a string counts as NUL, which is
    below every other character. *)
Fixpoint strcmp (a b : string) : Z :=
  match a, b with
  | EmptyString, EmptyString => 0
  | EmptyString, String _ _ => -1
  | String _ _, EmptyString => 1
  | String x a', String y b' =>
      match N.compare (N_of_ascii x) (N_of_ascii y) with
      | Lt => -1
      | Gt => 1
      | Eq => strcmp a' b'
      end
  end.

(** [isspace] in the classic locale: space, and the controls 9 to 13. *)
Definition isspace (c : ascii) : bool :=
  let n := N_of_ascii c in
  N.eqb n 32 || (N.leb 9 n && N.leb n 13).

End CString.

Import CString.

(** ** Input streams *)

Module IStream.

(** An input stream: the characters not yet read and the state bits.  The
    format flags are the defaults ([skipws] set, field width zero). *)
Record istream := {
  unread : string;
  eofbit : bool;
  failbit : bool;
  badbit : bool
}.

Definition good (s : istream) : bool :=
  negb (eofbit s || failbit s || badbit s).

(** A fresh [std::istringstream] over [text]. *)
Definition of_string (text : string) : istream :=
  {| unread := text; eofbit := false; failbit := false; badbit := false |}.

Fixpoint skip_ws (s : string) : string :=
  match s with
  | EmptyString => EmptyString
  | String c r => if isspace c then skip_ws r else s
  end.

(** The longest prefix without white space, and what follows it. *)
Fixpoint take_word (s : string) : string * string :=
  match s with
  | EmptyString => (EmptyString, EmptyString)
  | String c r =>
      if isspace c then (EmptyString, s)
      else let '(w, rest) := take_word r in (String c w, rest)
  end.

(** [is >> buf] for a [std::string buf] that is empty before the call, as
    the local of [operator>>] below is.  A stream that is not good only gets
    [failbit]; otherwise leading white space is skipped and the characters up
    to the next white space are extracted; reaching the end sets [eofbit],
    and extracting nothing sets [failbit]. *)
Definition extract_string (s : istream) : istream * string :=
  if good s then
    let body := skip_ws (unread s) in
    match body with
    | EmptyString =>
        ({| unread := EmptyString; eofbit := true; failbit := true;
            badbit := badbit s |}, EmptyString)
    | String _ _ =>
        let '(w, rest) := take_word body in
        ({| unread := rest;
            eofbit := match rest with EmptyString => true | _ => false end;
            failbit := false; badbit := badbit s |}, w)
    end
  else
    ({| unread := unread s; eofbit := eofbit s; failbit := true;
        badbit := badbit s |}, EmptyString).

End IStream.

Import IStream.

(** ** Log levels *)

Module Level.

(** [enum class log]. *)
Inductive log : Set :=
  NONE | FATAL | ERROR | WARNING | INFO | DEBUG | TRACE | TRACEALL.

(** [DBGTRACE = TRACEALL]: a second name of the last enumerator. *)
Definition DBGTRACE : log := TRACEALL.

#[export] Instance log_eq_dec : EqDecision log.
Proof. solve_decision. Defined.

(** [static_cast<int>] and [static_cast<unsigned>] of a level. *)
Definition log_to_nat (l : log) : nat :=
  match l with
  | NONE => 0 | FATAL => 1 | ERROR => 2 | WARNING => 3
  | INFO => 4 | DEBUG => 5 | TRACE => 6 | TRACEALL => 7
  end%nat.

Definition log_to_Z (l : log) : Z := Z.of_nat (log_to_nat l).

(** The array [buffer] of level names. *)
Definition buffer : list string :=
  ["NONE"; "FATAL"; "ERROR"; "WARNING"; "INFO"; "DEBUG"; "TRACE"; "TRACEALL"].

(** [as_log]: [None] stands for the failed assertion (and, where assertions
    are compiled out, for the access outside the array [m]). *)
Definition as_log (logLevel : Z) : option log :=
  if (log_to_Z NONE <=? logLevel) && (logLevel <=? log_to_Z TRACEALL) then
    let m := [NONE; FATAL; ERROR; WARNING; INFO; DEBUG; TRACE; TRACEALL] in
    m !! Z.to_nat logLevel
  else None.

(** The loop of [operator>>], entered at index [i] with [todo] iterations
    left: the first name equal to the token decides; [val] is returned as it
    was when none is.  [None] is a failed [as_log] or an index outside
    [buffer]. *)
Fixpoint scan_names (buf : string) (i todo : nat) (val : log) : option log :=
  match todo with
  | O => Some val
  | S k =>
      match buffer !! i with
      | None => None
      | Some name =>
          if strcmp (c_str buf) name =? 0 then as_log (Z.of_nat i)
          else scan_names buf (S i) k val
      end
  end.

(** [operator>>(std::istream&, log&)]: the stream after the call and the
    value of [val] after it. *)
Definition read_log (ins : istream) (val : log) : option (istream * log) :=
  let '(ins', buf) := extract_string ins in
  match scan_names buf 0 (S (log_to_nat TRACEALL)) val with
  | Some v => Some (ins', v)
  | None => None
  end.

(** [operator<<(std::ostream&, log const&)] on a stream whose text so far is
    [os]: the text after the call. *)
Definition write_log (os : string) (val : log) : option string :=
  match buffer !! log_to_nat val with
  | Some name => Some (os +:+ name)
  | None => None
  end.

(** The name of each level, spelled out as the specification lists them. *)
Definition canonical_name (l : log) : string :=
  match l with
  | NONE => "NONE" | FATAL => "FATAL" | ERROR => "ERROR"
  | WARNING => "WARNING" | INFO => "INFO" | DEBUG => "DEBUG"
  | TRACE => "TRACE" | TRACEALL => "TRACEALL"
  end.

(** A token with a NUL inside, as a stream of raw characters can hold:
    [INFO], NUL, [x]. *)
Definition info_nul_x : string := "INFO" +:+ String NUL "x".

End Level.

Import Level.

(** ** The report handler of SystemC, as far as the header uses it *)

Module SystemC.

(** [sc_core::sc_severity]. *)
Inductive sc_severity : Set := SC_INFO | SC_WARNING | SC_ERROR | SC_FATAL.

#[export] Instance sc_severity_eq_dec : EqDecision sc_severity.
Proof. solve_decision. Defined.

(** [sc_core::sc_verbosity]. *)
Definition SC_NONE : Z := 0.
Definition SC_LOW : Z := 100.
Definition SC_MEDIUM : Z := 200.
Definition SC_HIGH : Z := 300.
Definition SC_FULL : Z := 400.
Definition SC_DEBUG : Z := 500.

(** The arguments of one call of [sc_report_handler::report]. *)
Record Report := {
  severity : sc_severity;
  msg_type : string;
  msg : string;
  verbosity : Z;
  file_name : string;
  line_number : Z
}.

End SystemC.

Import SystemC.

(** ** The logger and the logging macros *)

Module Logger.

(** The data members of an [ScLogger<SEVERITY>]; the template argument is
    kept with them.  [t] is a pointer: the address of the first character of
    a category name, or [None] for the null pointer.  [file] comes from
    [__FILE__], a literal that lives as long as the program, and is kept by
    its characters. *)
Record ScLogger := {
  SEVERITY : sc_severity;
  os : string;
  t : option nat;
  file : string;
  line : Z;
  level : Z
}.

(** The state the header works on: the verbosity level of the report
    handler; the verbosity levels registered for single categories; the
    character buffers alive, by address (string literals, the characters of
    [std::string] objects, and the like); the bytes a read finds at an
    address where no buffer is alive, about which nothing is known; the
    loggers alive, by address; how many loggers have been constructed; and
    the reports handed to the handler, oldest first. *)
Record World := {
  verbosity_level : Z;
  category_levels : gmap string Z;
  strings : gmap nat string;
  stale : nat -> string;
  loggers : gmap nat ScLogger;
  constructed : nat;
  sink : list Report
}.

(** Computations on the state; [None] is a step outside the language, here
    the use of a logger that is not alive. *)
Definition M (A : Type) : Type := World -> option (A * World).

Definition ret {A} (a : A) : M A := fun w => Some (a, w).

Definition bind {A B} (m : M A) (k : A -> M B) : M B :=
  fun w => match m w with
           | Some (a, w') => k a w'
           | None => None
           end.

Notation "x <~ m ; k" := (bind m (fun x => k))
  (at level 20, m at level 100, k at level 200, only parsing).

(** [sc_report_handler::report]: the report reaches the handler.  What the
    handler does with it afterwards is its own business and not part of the
    header; the embedding goes on as after a handler that returns. *)
Definition report (sev : sc_severity) (ty message : string) (verb : Z)
    (f : string) (l : Z) : M unit :=
  fun w => Some (tt,
    {| verbosity_level := verbosity_level w;
       category_levels := category_levels w;
       strings := strings w;
       stale := stale w;
       loggers := loggers w;
       constructed := constructed w;
       sink := sink w ++ [ {| severity := sev; msg_type := ty; msg := message;
                              verbosity := verb; file_name := f;
                              line_number := l |} ] |}).

Definition with_loggers (w : World) (ls : gmap nat ScLogger) : World :=
  {| verbosity_level := verbosity_level w;
     category_levels := category_levels w;
     strings := strings w;
     stale := stale w;
     loggers := ls;
     constructed := constructed w;
     sink := sink w |}.

Definition with_strings (w : World) (ss : gmap nat string) : World :=
  {| verbosity_level := verbosity_level w;
     category_levels := category_levels w;
     strings := ss;
     stale := stale w;
     loggers := loggers w;
     constructed := constructed w;
     sink := sink w |}.

(** The C string a [char const*] with the value [p] denotes in the state
    [w]: the characters of the buffer alive at [p] up to the first NUL; where
    no buffer is alive, whatever bytes are found there. *)
Definition read_c_string (w : World) (p : nat) : string :=
  c_str (match strings w !! p with
         | Some s => s
         | None => stale w p
         end).

Definition c_string_at (p : nat) : M string :=
  fun w => Some (read_c_string w p, w).

(** A [std::string] with the characters [s] comes into being, at an address
    not in use; the result is the address of its characters, which is what
    [c_str()] returns for it. *)
Definition new_string (s : string) : M nat :=
  fun w =>
    let a := fresh (dom (strings w)) in
    Some (a, with_strings w (<[a := s]> (strings w))).

(** The string at [a] is destroyed. *)
Definition delete_string (a : nat) : M unit :=
  fun w => Some (tt, with_strings w (delete a (strings w))).

(** Reading and writing the members of the logger at address [this]. *)
Definition deref (this : nat) : M ScLogger :=
  fun w => match loggers w !! this with
           | Some l => Some (l, w)
           | None => None
           end.

Definition assign (this : nat) (l : ScLogger) : M unit :=
  fun w => match loggers w !! this with
           | Some _ => Some (tt, with_loggers w (<[this := l]> (loggers w)))
           | None => None
           end.

(** The constructor: a new logger at an address not in use, with [t] null
    and an empty stream. *)
Definition ScLogger_new (sev : sc_severity) (f : string) (l verb : Z) : M nat :=
  fun w =>
    let this := fresh (dom (loggers w)) in
    Some (this,
      {| verbosity_level := verbosity_level w;
         category_levels := category_levels w;
         strings := strings w;
         stale := stale w;
         loggers := <[this := {| SEVERITY := sev; os := EmptyString; t := None;
                                 file := f; line := l; level := verb |}]>
                      (loggers w);
         constructed := S (constructed w);
         sink := sink w |}).

(** The destructor: one report, whose category is the C string [t] points
    to at this moment, or ["SystemC"] for a null [t]; and the logger is
    gone. *)
Definition ScLogger_delete (this : nat) : M unit :=
  l <~ deref this ;
  ty <~ match t l with
        | Some p => c_string_at p
        | None => ret "SystemC"
        end ;
  _ <~ report (SEVERITY l) ty (c_str (os l)) (level l) (file l) (line l) ;
  fun w => Some (tt, with_loggers w (delete this (loggers w))).

Definition set_t (l : ScLogger) (p : option nat) : ScLogger :=
  {| SEVERITY := SEVERITY l; os := os l; t := p;
     file := file l; line := line l; level := level l |}.

(** [type()], [type] of a [char const*] and [type] of a [std::string]; each
    returns [*this], here the address.  The last two keep the pointer they
    are given, the second the pointer [c_str()] of its argument, which is
    the address [a] of the characters of that string; no character is
    copied. *)
Definition type_reset (this : nat) : M nat :=
  l <~ deref this ; _ <~ assign this (set_t l None) ; ret this.

Definition type_cstr (this : nat) (p : option nat) : M nat :=
  l <~ deref this ; _ <~ assign this (set_t l p) ; ret this.

Definition type_string (this : nat) (a : nat) : M nat :=
  l <~ deref this ; _ <~ assign this (set_t l (Some a)) ; ret this.

(** [get()]: the stream of the logger, named by the logger's address. *)
Definition get (this : nat) : M nat :=
  _ <~ deref this ; ret this.

Definition set_os (l : ScLogger) (s : string) : ScLogger :=
  {| SEVERITY := SEVERITY l; os := s; t := t l;
     file := file l; line := line l; level := level l |}.

(** One insertion [stream << x], where [text] is what the insertion of [x]
    puts out; it returns the stream. *)
Definition put (stream : nat) (text : string) : M nat :=
  l <~ deref stream ;
  _ <~ assign stream (set_os l (os l +:+ text)) ;
  ret stream.

Fixpoint put_all (stream : nat) (texts : list string) : M nat :=
  match texts with
  | [] => ret stream
  | x :: rest => s <~ put stream x ; put_all s rest
  end.

(** The texts of several insertions in a row. *)
Definition concat_texts (texts : list string) : string :=
  foldr String.append EmptyString texts.

(** A logger from construction to destruction with [texts] written to its
    stream in between. *)
Definition logger_lifetime (sev : sc_severity) (f : string) (l verb : Z)
    (texts : list string) : M unit :=
  this <~ ScLogger_new sev f l verb ;
  s <~ get this ;
  _ <~ put_all s texts ;
  ScLogger_delete this.

(** A call of one of the three overloads of [type]: without argument, with
    a [char const*], with the [std::string] whose characters are at [a]. *)
Inductive type_call : Type :=
  | TypeReset
  | TypeCStr (p : option nat)
  | TypeString (a : nat).

Definition do_type (this : nat) (c : type_call) : M nat :=
  match c with
  | TypeReset => type_reset this
  | TypeCStr p => type_cstr this p
  | TypeString a => type_string this a
  end.

(** A chain [.type(..).type(..)...] on the logger at [this]: each call is
    made on what the call before returned; the result lists what the calls
    returned. *)
Fixpoint type_chain (this : nat) (calls : list type_call) : M (list nat) :=
  match calls with
  | [] => ret []
  | c :: rest =>
      r <~ do_type this c ;
      rs <~ type_chain r rest ;
      ret (r :: rs)
  end.

(** What a call of [type] stores in [t]. *)
Definition stored_tag (c : type_call) : option nat :=
  match c with
  | TypeReset => None
  | TypeCStr p => p
  | TypeString a => Some a
  end.

(** The category the destructor reports in the state [w] for a value of
    [t]. *)
Definition category_at (w : World) (tag : option nat) : string :=
  match tag with
  | Some p => read_c_string w p
  | None => "SystemC"
  end.

(** The logger at [this] is tagged by the call [c] and destroyed next, and
    the one report this makes carries the category [cat]. *)
Definition tagged_then_destroyed (w : World) (this : nat) (c : type_call)
    (cat : string) : Prop :=
  exists w1 w2 r,
    do_type this c w = Some (this, w1) /\
    ScLogger_delete this w1 = Some (tt, w2) /\
    sink w2 = sink w ++ [r] /\
    msg_type r = cat.

(** A computation that hands nothing to the report handler. *)
Definition keeps_sink {A} (m : M A) : Prop :=
  forall w a w', m w = Some (a, w') -> sink w' = sink w.

(** Bytes to be found where no buffer is alive, for the examples. *)
Definition scrap (p : nat) : string := "#@!".

(** A state to run examples in: the handler at [SC_MEDIUM], no category
    registered, no string and no logger alive. *)
Definition quiet_world : World :=
  {| verbosity_level := SC_MEDIUM; category_levels := ∅; strings := ∅;
     stale := scrap; loggers := ∅; constructed := 0; sink := [] |}.

(** A text and a category with a NUL inside. *)
Definition a_nul_b : string := "a" +:+ String NUL "b".
Definition bus_nul_x : string := "BUS" +:+ String NUL "x".

(** A state with three strings alive, [BUS] at address 5, [BUS], NUL, [x]
    at 6 and [CPU] at 7, and one logger alive, at address 0, tagged with
    the first of them. *)
Definition bus_logger : ScLogger :=
  {| SEVERITY := SC_INFO; os := "start"; t := Some 5%nat;
     file := "top.cpp"; line := 12; level := 20 |}.

Definition one_logger_world : World :=
  {| verbosity_level := SC_MEDIUM; category_levels := ∅;
     strings := <[5%nat := "BUS"]> (<[6%nat := bus_nul_x]> {[ 7%nat := "CPU" ]});
     stale := scrap;
     loggers := {[ 0%nat := bus_logger ]}; constructed := 1; sink := [] |}.

(** What a macro is called with: nothing; a [char const*] (possibly null);
    a [std::string] object that exists beside the statement, with its
    characters at [a]; or an expression whose value is a temporary
    [std::string] with the characters [s]. *)
Inductive tag_arg : Type :=
  | NoArg
  | CStrArg (p : option nat)
  | StringArg (a : nat)
  | StringTemp (s : string).

(** [get_log_verbosity()]: the level of the report handler. *)
Definition get_log_verbosity : M Z :=
  fun w => Some (verbosity_level w, w).

(** Modelled from the spec: [get_log_verbosity] of a [char const*] is declared in
    the header and defined elsewhere.  It gives the level registered for the
    category when there is one, and the global level otherwise (also for a
    null pointer, which names no category). *)
Definition get_log_verbosity_cstr (p : option nat) : M Z :=
  fun w => match p with
           | Some a => match category_levels w !! read_c_string w a with
                       | Some v => Some (v, w)
                       | None => Some (verbosity_level w, w)
                       end
           | None => Some (verbosity_level w, w)
           end.

(** [get_log_verbosity] of a [std::string]: it passes on [t.c_str()]. *)
Definition get_log_verbosity_string (a : nat) : M Z :=
  get_log_verbosity_cstr (Some a).

(** [get_log_verbosity(__VA_ARGS__)]: the overload the arguments of the
    macro select.  A temporary argument lives until the condition of the
    [if] has been evaluated. *)
Definition get_log_verbosity_of (a : tag_arg) : M Z :=
  match a with
  | NoArg => get_log_verbosity
  | CStrArg p => get_log_verbosity_cstr p
  | StringArg a => get_log_verbosity_string a
  | StringTemp s =>
      tmp <~ new_string s ;
      v <~ get_log_verbosity_string tmp ;
      _ <~ delete_string tmp ;
      ret v
  end.

(** The temporary of a macro and its life: constructed, tagged, written to,
    destroyed at the end of the statement.  When the argument of the macro
    is a temporary [std::string], that temporary is made after the logger
    (the object of a member call is evaluated before the arguments) and
    therefore destroyed before it: temporaries go in the reverse order of
    their construction. *)
Definition logger_statement (sev : sc_severity) (verb : Z) (f : string)
    (l : Z) (a : tag_arg) (texts : list string) : M unit :=
  this <~ ScLogger_new sev f l verb ;
  match a with
  | NoArg =>
      this' <~ type_reset this ;
      s <~ get this' ;
      _ <~ put_all s texts ;
      ScLogger_delete this
  | CStrArg p =>
      this' <~ type_cstr this p ;
      s <~ get this' ;
      _ <~ put_all s texts ;
      ScLogger_delete this
  | StringArg a =>
      this' <~ type_string this a ;
      s <~ get this' ;
      _ <~ put_all s texts ;
      ScLogger_delete this
  | StringTemp chars =>
      tmp <~ new_string chars ;
      this' <~ type_string this tmp ;
      s <~ get this' ;
      _ <~ put_all s texts ;
      _ <~ delete_string tmp ;
      ScLogger_delete this
  end.

(** The category a statement of a macro reports in the state [w]: for a
    temporary argument, what is found where its characters were, at the
    first address that was free. *)
Definition statement_category (w : World) (a : tag_arg) : string :=
  match a with
  | NoArg => "SystemC"
  | CStrArg p => category_at w p
  | StringArg a => category_at w (Some a)
  | StringTemp _ => c_str (stale w (fresh (dom (strings w))))
  end.

(** A statement [MACRO(a) << x1 << ... << xn;] of a macro that tests the
    verbosity against [threshold] first. *)
Definition gated_statement (threshold : Z) (f : string) (l : Z) (a : tag_arg)
    (texts : list string) : M unit :=
  v <~ get_log_verbosity_of a ;
  if threshold <=? v
  then logger_statement SC_INFO (threshold / 10) f l a texts
  else ret tt.

Definition SCCTRACEALL := gated_statement SC_DEBUG.
Definition SCCTRACE := gated_statement SC_FULL.
Definition SCCDEBUG := gated_statement SC_HIGH.
Definition SCCINFO := gated_statement SC_MEDIUM.
Definition SCCWARN := logger_statement SC_WARNING SC_MEDIUM.
Definition SCCERR := logger_statement SC_ERROR SC_MEDIUM.
Definition SCCFATAL := logger_statement SC_FATAL SC_MEDIUM.

(** The macros by name. *)
Inductive tiered_macro : Set := MTRACEALL | MTRACE | MDEBUG | MINFO.
Inductive ungated_macro : Set := MWARN | MERR | MFATAL.

Definition run_tiered (m : tiered_macro) :=
  match m with
  | MTRACEALL => SCCTRACEALL | MTRACE => SCCTRACE
  | MDEBUG => SCCDEBUG | MINFO => SCCINFO
  end.

(** The level a tiered macro compares the verbosity with. *)
Definition requested_level (m : tiered_macro) : Z :=
  match m with
  | MTRACEALL => SC_DEBUG | MTRACE => SC_FULL
  | MDEBUG => SC_HIGH | MINFO => SC_MEDIUM
  end.

Definition run_ungated (m : ungated_macro) :=
  match m with
  | MWARN => SCCWARN | MERR => SCCERR | MFATAL => SCCFATAL
  end.

Definition severity_of (m : ungated_macro) : sc_severity :=
  match m with
  | MWARN => SC_WARNING | MERR => SC_ERROR | MFATAL => SC_FATAL
  end.

(** The name of the category a macro is called with, if it is called with
    one. *)
Definition category_of (w : World) (a : tag_arg) : option string :=
  match a with
  | NoArg => None
  | CStrArg None => None
  | CStrArg (Some p) => Some (read_c_string w p)
  | StringArg a => Some (read_c_string w a)
  | StringTemp s => Some (c_str s)
  end.

(** The effective level of the category a macro is called with: the level
    registered for the category if there is one, the global level
    otherwise. *)
Definition effective_level (w : World) (a : tag_arg) : Z :=
  match category_of w a with
  | Some c => default (verbosity_level w) (category_levels w !! c)
  | None => verbosity_level w
  end.

End Logger.

(** ** Stream redirection *)

Module Redirect.

(** A stream buffer a target stream can be bound to: a buffer of its own,
    or the intercepting buffer of the session. *)
Inductive streambuf : Set :=
  | Original (id : nat)
  | Intercepting.

#[export] Instance streambuf_eq_dec : EqDecision streambuf.
Proof. solve_decision. Defined.

(** A record forwarded by the redirection: the level of the session, the
    category (none) and the text of one line. *)
Record Forwarded := {
  at_level : log;
  category : option string;
  text : string
}.

(** The members [os] (by the buffer it is bound to), [level] and [old_buf]
    of a [stream_redirection], the characters held by its [std::stringbuf]
    base, and what has been observed of the session: the records forwarded,
    the buffers put back into the stream, and the characters the stream sent
    to a buffer of its own. *)
Record stream_redirection := {
  os_rdbuf : streambuf;
  level : log;
  old_buf : option streambuf;
  held : string;
  forwarded : list Forwarded;
  restored : list streambuf;
  passed_on : string
}.

Definition newline : ascii := Ascii.Ascii false true false true false false false false.

(** Modelled from the spec: the constructor is defined outside the header.
    It captures the buffer [b] the stream is bound to and installs the
    intercepting buffer. *)
Definition start (b : streambuf) (lvl : log) : stream_redirection :=
  {| os_rdbuf := Intercepting; level := lvl; old_buf := Some b;
     held := EmptyString; forwarded := []; restored := [];
     passed_on := EmptyString |}.

(** The held characters go out as one record at the level of the session,
    without a category, and the buffer is empty again. *)
Definition forward (r : stream_redirection) : stream_redirection :=
  {| os_rdbuf := os_rdbuf r; level := level r; old_buf := old_buf r;
     held := EmptyString;
     forwarded := forwarded r ++
       [ {| at_level := level r; category := None; text := held r |} ];
     restored := restored r; passed_on := passed_on r |}.

Definition hold (r : stream_redirection) (c : ascii) : stream_redirection :=
  {| os_rdbuf := os_rdbuf r; level := level r; old_buf := old_buf r;
     held := held r +:+ String c EmptyString;
     forwarded := forwarded r;
     restored := restored r; passed_on := passed_on r |}.

(** Modelled from the spec: [xsputn] is defined outside the header.  It
    buffers the incoming characters; at each newline the characters held up
    to that point are forwarded as one record. *)
Fixpoint xsputn (r : stream_redirection) (s : string) : stream_redirection :=
  match s with
  | EmptyString => r
  | String c rest =>
      if Ascii.eqb c newline then xsputn (forward r) rest
      else xsputn (hold r c) rest
  end.

(** Modelled from the spec: [sync] is defined outside the header.  It is the
    flush request: trailing characters without a newline, if any are held,
    are forwarded as one record. *)
Definition sync (r : stream_redirection) : stream_redirection :=
  match held r with
  | EmptyString => r
  | String _ _ => forward r
  end.

(** Modelled from the spec: [reset] is defined outside the header.  While
    the session holds a captured buffer it delivers what is held, puts the
    captured buffer back into the stream and lets go of it; without a
    captured buffer it does nothing. *)
Definition reset (r : stream_redirection) : stream_redirection :=
  match old_buf r with
  | Some b =>
      let r' := sync r in
      {| os_rdbuf := b; level := level r'; old_buf := None;
         held := held r'; forwarded := forwarded r';
         restored := restored r' ++ [b]; passed_on := passed_on r' |}
  | None => r
  end.

(** Modelled from the spec: the destructor is defined outside the header.
    It does what [reset] does, so a session not reset before is reset
    then. *)
Definition destroy (r : stream_redirection) : stream_redirection := reset r.

(** Writing [s] to the target stream: the characters reach the buffer the
    stream is bound to. *)
Definition write (r : stream_redirection) (s : string) : stream_redirection :=
  match os_rdbuf r with
  | Intercepting => xsputn r s
  | Original _ =>
      {| os_rdbuf := os_rdbuf r; level := level r; old_buf := old_buf r;
         held := held r; forwarded := forwarded r; restored := restored r;
         passed_on := passed_on r +:+ s |}
  end.

(** Flushing the target stream. *)
Definition flush (r : stream_redirection) : stream_redirection :=
  match os_rdbuf r with
  | Intercepting => sync r
  | Original _ => r
  end.

Definition line (lvl : log) (s : string) : Forwarded :=
  {| at_level := lvl; category := None; text := s |}.

(** The texts of the examples: two complete lines, and a lone newline. *)
Definition abc_def_lines : string :=
  Eval cbv in "abc" +:+ String newline ("def" +:+ String newline EmptyString).

Definition end_of_line : string := String newline EmptyString.

(** The number of newlines in a text. *)
Fixpoint count_newlines (s : string) : nat :=
  match s with
  | EmptyString => O
  | String c rest =>
      if Ascii.eqb c newline then S (count_newlines rest)
      else count_newlines rest
  end.

End Redirect.

(** ** Texts around a token *)

Module Tokens.

(** Every character of [s] is white space. *)
Fixpoint all_space (s : string) : bool :=
  match s with
  | EmptyString => true
  | String c r => isspace c && all_space r
  end.

(** No character of [s] is white space. *)
Fixpoint no_space (s : string) : bool :=
  match s with
  | EmptyString => true
  | String c r => negb (isspace c) && no_space r
  end.

(** [s] is empty or begins with white space: a token before it ends
    there. *)
Definition word_ends (s : string) : bool :=
  match s with
  | EmptyString => true
  | String c _ => isspace c
  end.

Definition is_empty (s : string) : bool :=
  match s with
  | EmptyString => true
  | String _ _ => false
  end.

End Tokens.

Import Tokens.

(** ** Programs over loggers *)

Module Scenarios.

Import Logger.

(** The run [m] hands exactly one report more to the handler. *)
Definition reports (m : M unit) (w : World) : Prop :=
  exists w' r, m w = Some (tt, w') /\ sink w' = sink w ++ [r].

(** A state with the handler at [SC_HIGH]. *)
Definition quiet_world_at_high : World :=
  {| verbosity_level := SC_HIGH; category_levels := ∅; strings := ∅;
     stale := scrap; loggers := ∅; constructed := 0; sink := [] |}.

(** The state with other levels registered for the categories. *)
Definition with_category_levels (w : World) (levels : gmap string Z) : World :=
  {| verbosity_level := verbosity_level w;
     category_levels := levels;
     strings := strings w;
     stale := stale w;
     loggers := loggers w;
     constructed := constructed w;
     sink := sink w |}.

(** Tagging and then writing, and writing and then tagging. *)
Definition type_then_put (this : nat) (c : type_call) (x : string) : M nat :=
  r <~ do_type this c ; s <~ get r ; put s x.

Definition put_then_type (this : nat) (c : type_call) (x : string) : M nat :=
  s <~ get this ; _ <~ put s x ; do_type this c.

(** A logger is tagged with a [std::string] that is made for the purpose
    and destroyed before the logger is. *)
Definition tag_outlived (this : nat) (chars : string) : M unit :=
  tmp <~ new_string chars ;
  _ <~ type_string this tmp ;
  _ <~ delete_string tmp ;
  ScLogger_delete this.

End Scenarios.

(** * Properties *)

(** ** C strings and token extraction *)

Module CStringFacts.

Lemma N_of_ascii_inj (x y : ascii) : N_of_ascii x = N_of_ascii y -> x = y.
Proof.
  intros H. rewrite <- (ascii_N_embedding x), <- (ascii_N_embedding y).
  now rewrite H.
Qed.

Lemma strcmp_refl (a : string) : strcmp a a = 0.
Proof.
  induction a as [|x a IH]; simpl; [reflexivity|].
  now rewrite N.compare_refl.
Qed.

(** [strcmp] gives zero exactly on equal C strings. *)
Lemma strcmp_zero (a b : string) : strcmp a b = 0 <-> a = b.
Proof.
  split; [|intros ->; apply strcmp_refl].
  revert b. induction a as [|x a IH]; intros [|y b]; simpl; try discriminate.
  - reflexivity.
  - destruct (N.compare_spec (N_of_ascii x) (N_of_ascii y)) as [E|_|_];
      try discriminate.
    intros H. apply N_of_ascii_inj in E. apply IH in H. congruence.
Qed.

Lemma strcmp_eqb (a b : string) : (strcmp a b =? 0) = bool_decide (a = b).
Proof.
  destruct (Z.eqb_spec (strcmp a b) 0) as [E|E];
    rewrite strcmp_zero in E; symmetry.
  - now apply bool_decide_eq_true.
  - now apply bool_decide_eq_false.
Qed.

Lemma c_str_nul_free (s : string) : nul_free s = true -> c_str s = s.
Proof.
  induction s as [|c s IH]; simpl; [reflexivity|].
  destruct (is_nul c); simpl; [discriminate|].
  intros H. now rewrite IH.
Qed.

Lemma c_str_is_nul_free (s : string) : nul_free (c_str s) = true.
Proof.
  induction s as [|c s IH]; simpl; [reflexivity|].
  destruct (is_nul c) eqn:E; simpl; [reflexivity|].
  now rewrite E.
Qed.

Lemma c_str_idemp (s : string) : c_str (c_str s) = c_str s.
Proof. apply c_str_nul_free, c_str_is_nul_free. Qed.

End CStringFacts.

Import CStringFacts.

(** ** Levels: [as_log], [operator<<], [operator>>] *)

Module LevelFacts.

Lemma log_to_Z_range (l : log) : 0 <= log_to_Z l <= 7.
Proof. destruct l; unfold log_to_Z; simpl; lia. Qed.

Lemma as_log_of_level (l : log) : as_log (log_to_Z l) = Some l.
Proof. now destruct l. Qed.

(** Outside [0, 7] the assertion of [as_log] fails. *)
Lemma as_log_out_of_range (i : Z) : i < 0 \/ 7 < i -> as_log i = None.
Proof.
  intros H. unfold as_log.
  change (log_to_Z NONE) with 0. change (log_to_Z TRACEALL) with 7.
  destruct (Z.leb_spec 0 i), (Z.leb_spec i 7); simpl; try reflexivity; lia.
Qed.

(** C10. For every integer [i] with [0 <= i <= 7], [as_log i] is defined
    (the assertion holds and the index is inside the array) and is the level
    whose integer value is [i]; and [as_log] undoes the cast of a level to
    its integer value. *)
Theorem as_log_inverse_of_cast (i : Z) (Hi : 0 <= i <= 7) :
  (exists l, as_log i = Some l /\ log_to_Z l = i) /\
  (forall l, as_log (log_to_Z l) = Some l).
Proof.
  split; [|apply as_log_of_level].
  assert (E : i = 0 \/ i = 1 \/ i = 2 \/ i = 3 \/
              i = 4 \/ i = 5 \/ i = 6 \/ i = 7) by lia.
  destruct E as [->|[->|[->|[->|[->|[->|[->| ->]]]]]]];
    eexists; (split; [reflexivity|reflexivity]).
Qed.

Lemma as_log_inverse_of_cast_witness :
  0 <= 3 <= 7 /\
  ((exists l, as_log 3 = Some l /\ log_to_Z l = 3) /\
   (forall l, as_log (log_to_Z l) = Some l)).
Proof.
  split; [lia | apply (as_log_inverse_of_cast 3); lia].
Defined.

(** The table [buffer] holds the name of each level at its index. *)
Lemma buffer_at_level (l : log) : buffer !! log_to_nat l = Some (canonical_name l).
Proof. now destruct l. Qed.

Lemma write_log_name (os : string) (l : log) :
  write_log os l = Some (os +:+ canonical_name l).
Proof. unfold write_log. now rewrite buffer_at_level. Qed.

(** The loop finds the level whose name the token spells. *)
Lemma scan_names_hit (buf : string) (l val : log) :
  c_str buf = canonical_name l ->
  scan_names buf 0 (S (log_to_nat TRACEALL)) val = Some l.
Proof.
  intros H. simpl. rewrite H. now destruct l.
Qed.

(** The loop changes nothing when the token spells no name. *)
Lemma scan_names_miss (buf : string) (val : log) :
  (forall l, c_str buf <> canonical_name l) ->
  scan_names buf 0 (S (log_to_nat TRACEALL)) val = Some val.
Proof.
  intros H. simpl. rewrite !strcmp_eqb.
  rewrite (bool_decide_eq_false_2 _ (H NONE)).
  rewrite (bool_decide_eq_false_2 _ (H FATAL)).
  rewrite (bool_decide_eq_false_2 _ (H ERROR)).
  rewrite (bool_decide_eq_false_2 _ (H WARNING)).
  rewrite (bool_decide_eq_false_2 _ (H INFO)).
  rewrite (bool_decide_eq_false_2 _ (H DEBUG)).
  rewrite (bool_decide_eq_false_2 _ (H TRACE)).
  rewrite (bool_decide_eq_false_2 _ (H TRACEALL)).
  reflexivity.
Qed.

(** The loop never runs into a failed [as_log] or out of [buffer]. *)
Lemma scan_names_total (buf : string) (val : log) :
  is_Some (scan_names buf 0 (S (log_to_nat TRACEALL)) val).
Proof.
  simpl.
  repeat match goal with
         | |- context [if ?b then _ else _] => destruct b; [by eexists|]
         end.
  by eexists.
Qed.

Lemma read_log_total (ins : istream) (val : log) : is_Some (read_log ins val).
Proof.
  unfold read_log. destruct (extract_string ins) as [ins' buf].
  destruct (scan_names_total buf val) as [v ->]. by eexists.
Qed.

(** C4. For every value of the enumeration, [operator<<] writes its
    canonical all-caps name, and [operator>>] on a stream holding that name
    gives the value back, whatever the variable held before; neither call
    fails. *)
Theorem log_format_parse_roundtrip (v val : log) :
  exists name,
    write_log EmptyString v = Some name /\
    name = canonical_name v /\
    exists ins', read_log (of_string name) val = Some (ins', v) /\
                 failbit ins' = false.
Proof.
  exists (canonical_name v). split; [apply write_log_name|].
  split; [reflexivity|].
  destruct v; eexists; (split; [reflexivity|reflexivity]).
Qed.

(** The round trip still holds with white space before the name and any
    text after white space behind it. *)
Lemma read_log_padded (v val : log) (rest : string) :
  exists ins',
    read_log (of_string (String " " (canonical_name v +:+ String " " rest))) val
    = Some (ins', v).
Proof. destruct v; eexists; reflexivity. Qed.

(** When a token could be extracted from a good stream, [failbit] is clear
    afterwards. *)
Lemma extract_string_no_failbit (ins : istream) :
  good ins = true ->
  (extract_string ins).2 <> EmptyString ->
  failbit (extract_string ins).1 = false.
Proof.
  unfold extract_string. intros ->.
  destruct (skip_ws (unread ins)) as [|c r]; [now intros []|].
  now destruct (take_word (String c r)).
Qed.

(** C5, as amended. [operator>>] reads the token as a C string: when the
    characters of the extracted token before its first NUL (all of them when
    it has none) do not spell one of the eight names, the call fails in no
    way, leaves the value unchanged, and returns the stream as the
    extraction of the token left it; in particular no failure bit records
    the unmatched name. *)
Theorem read_log_unknown_token (ins : istream) (val : log) :
  (forall l, c_str (extract_string ins).2 <> canonical_name l) ->
  read_log ins val = Some ((extract_string ins).1, val) /\
  (good ins = true -> (extract_string ins).2 <> EmptyString ->
   failbit (extract_string ins).1 = false).
Proof.
  intros H. split; [|apply extract_string_no_failbit].
  unfold read_log.
  destruct (extract_string ins) as [ins' buf]. cbn [fst snd] in H |- *.
  now rewrite (scan_names_miss buf val H).
Qed.

Lemma read_log_unknown_token_witness :
  (forall l, c_str (extract_string (of_string "info")).2 <> canonical_name l) /\
  (read_log (of_string "info") WARNING
   = Some ((extract_string (of_string "info")).1, WARNING) /\
   (good (of_string "info") = true ->
    (extract_string (of_string "info")).2 <> EmptyString ->
    failbit (extract_string (of_string "info")).1 = false)).
Proof.
  assert (H : forall l,
    c_str (extract_string (of_string "info")).2 <> canonical_name l)
    by (intros l; destruct l; vm_compute; discriminate).
  split; [exact H | apply (read_log_unknown_token (of_string "info") WARNING H)].
Defined.

(** For tokens without a NUL this is the exact match on the token itself. *)
Lemma read_log_unknown_text (ins : istream) (val : log) :
  nul_free (extract_string ins).2 = true ->
  (forall l, (extract_string ins).2 <> canonical_name l) ->
  read_log ins val = Some ((extract_string ins).1, val).
Proof.
  intros Hn H. unfold read_log.
  destruct (extract_string ins) as [ins' buf]. cbn [fst snd] in Hn, H |- *.
  rewrite scan_names_miss; [reflexivity|].
  intros l. rewrite (c_str_nul_free _ Hn). apply H.
Qed.

(** C5, counterexample. The token [INFO], NUL, [x] is none of the eight
    names, yet reading it into a variable holding [NONE] stores [INFO]; and
    after reading the unknown token [info] the state of the stream is the
    one a successful read of [INFO] leaves, with no failure bit set. *)
Lemma read_log_nul_token_counterexample :
  ((extract_string (of_string info_nul_x)).2 = info_nul_x /\
   (forall l, info_nul_x <> canonical_name l) /\
   snd <$> read_log (of_string info_nul_x) NONE = Some INFO /\
   INFO <> NONE) /\
  (fst <$> read_log (of_string "info") NONE
   = fst <$> read_log (of_string "INFO") NONE /\
   failbit <$> (fst <$> read_log (of_string "info") NONE) = Some false).
Proof.
  split; [|split; reflexivity].
  split; [reflexivity|]. split; [|split; [reflexivity|discriminate]].
  intros l; destruct l; discriminate.
Qed.

(** An unknown name is not recorded in the stream state: after a token
    could be extracted from a good stream, [failbit] is clear whether or not
    the token spelled a level. *)
Lemma read_log_sets_no_failbit (ins ins' : istream) (val v : log) :
  good ins = true ->
  skip_ws (unread ins) <> EmptyString ->
  read_log ins val = Some (ins', v) ->
  failbit ins' = false.
Proof.
  intros Hg Hne. unfold read_log, extract_string. rewrite Hg.
  destruct (skip_ws (unread ins)) as [|c r]; [congruence|].
  destruct (take_word (String c r)) as [w rest].
  destruct (scan_names w 0 _ val); [|discriminate].
  intros [= <- _]. reflexivity.
Qed.

End LevelFacts.

(** ** The logger: running its member functions *)

Module LoggerFacts.

Import Logger.

Lemma bind_run {A B} (m : M A) (k : A -> M B) w a w' :
  m w = Some (a, w') -> bind m k w = k a w'.
Proof. unfold bind. now intros ->. Qed.

Lemma with_loggers_same (w : World) : with_loggers w (loggers w) = w.
Proof. now destruct w. Qed.

Lemma with_strings_same (w : World) : with_strings w (strings w) = w.
Proof. now destruct w. Qed.

Lemma set_os_same (L : ScLogger) : set_os L (os L) = L.
Proof. now destruct L. Qed.

Lemma append_cons (c : ascii) (s r : string) :
  String c s +:+ r = String c (s +:+ r).
Proof. reflexivity. Qed.

Lemma append_empty_r (s : string) : s +:+ EmptyString = s.
Proof.
  induction s as [|c s IH]; [reflexivity|]. now rewrite append_cons, IH.
Qed.

Lemma append_assoc (a b c : string) : (a +:+ b) +:+ c = a +:+ (b +:+ c).
Proof.
  induction a as [|x a IH]; [reflexivity|]. now rewrite !append_cons, IH.
Qed.

Section Alive.

Variables (w : World) (this : nat) (L : ScLogger).
Hypothesis alive : loggers w !! this = Some L.

Lemma deref_run : deref this w = Some (L, w).
Proof. unfold deref. now rewrite alive. Qed.

Lemma assign_run (L' : ScLogger) :
  assign this L' w = Some (tt, with_loggers w (<[this := L']> (loggers w))).
Proof. unfold assign. now rewrite alive. Qed.

Lemma get_run : get this w = Some (this, w).
Proof. unfold get. now rewrite (bind_run _ _ _ _ _ deref_run). Qed.

(** Each overload of [type] stores its pointer and returns the logger it
    was called on. *)
Lemma do_type_run (c : type_call) :
  do_type this c w
  = Some (this, with_loggers w (<[this := set_t L (stored_tag c)]> (loggers w))).
Proof.
  destruct c; simpl; unfold type_reset, type_cstr, type_string;
    rewrite (bind_run _ _ _ _ _ deref_run);
    now rewrite (bind_run _ _ _ _ _ (assign_run _)).
Qed.

Lemma put_run (text : string) :
  put this text w
  = Some (this, with_loggers w (<[this := set_os L (os L +:+ text)]> (loggers w))).
Proof.
  unfold put. rewrite (bind_run _ _ _ _ _ deref_run).
  now rewrite (bind_run _ _ _ _ _ (assign_run _)).
Qed.

(** The destructor hands over one report and removes the logger. *)
Lemma ScLogger_delete_run :
  ScLogger_delete this w
  = Some (tt,
      {| verbosity_level := verbosity_level w;
         category_levels := category_levels w;
         strings := strings w;
         stale := stale w;
         loggers := delete this (loggers w);
         constructed := constructed w;
         sink := sink w ++
           [ {| severity := SEVERITY L; msg_type := category_at w (t L);
                msg := c_str (os L); verbosity := level L;
                file_name := file L; line_number := line L |} ] |}).
Proof.
  unfold ScLogger_delete. rewrite (bind_run _ _ _ _ _ deref_run).
  now destruct (t L).
Qed.

End Alive.

(** Insertions append to the text of the stream, in order. *)
Lemma put_all_run (texts : list string) : forall w this L,
  loggers w !! this = Some L ->
  put_all this texts w
  = Some (this, with_loggers w
       (<[this := set_os L (os L +:+ concat_texts texts)]> (loggers w))).
Proof.
  induction texts as [|x texts IH]; intros w this L alive; simpl.
  - rewrite append_empty_r, set_os_same, (insert_id _ _ _ alive).
    now rewrite with_loggers_same.
  - rewrite (bind_run _ _ _ _ _ (put_run w this L alive x)).
    rewrite (IH _ this (set_os L (os L +:+ x))) by apply lookup_insert_eq.
    simpl. now rewrite insert_insert_eq, append_assoc.
Qed.

Lemma last_tag (t0 : option nat) (c : type_call) (calls : list type_call) :
  default (stored_tag c) (stored_tag <$> last calls)
  = default t0 (stored_tag <$> last (c :: calls)).
Proof.
  destruct calls as [|c' calls]; [reflexivity|]. rewrite last_cons_cons.
  destruct (last (c' :: calls)) eqn:E; [reflexivity|].
  apply last_None in E. discriminate.
Qed.

(** The chain of [type] calls returns the same logger each time and leaves
    the pointer of the last call, or the pointer there was when there is no
    call. *)
Lemma type_chain_run (calls : list type_call) : forall w this L,
  loggers w !! this = Some L ->
  type_chain this calls w
  = Some (replicate (length calls) this,
          with_loggers w
            (<[this := set_t L (default (t L) (stored_tag <$> last calls))]>
               (loggers w))).
Proof.
  induction calls as [|c calls IH]; intros w this L alive; simpl.
  - replace (set_t L (t L)) with L by now destruct L.
    now rewrite (insert_id _ _ _ alive), with_loggers_same.
  - rewrite (bind_run _ _ _ _ _ (do_type_run w this L alive c)).
    rewrite (bind_run _ _ _ _ _
      (IH _ this (set_t L (stored_tag c)) (lookup_insert_eq _ _ _))).
    unfold ret, with_loggers. cbn [loggers t set_t].
    now rewrite insert_insert_eq, (last_tag (t L)).
Qed.

(** A new logger has no tag and an empty stream, and nothing else changes
    by constructing it. *)
Lemma ScLogger_new_run sev f l verb w :
  exists this w',
    ScLogger_new sev f l verb w = Some (this, w') /\
    loggers w !! this = None /\
    loggers w' = <[this := {| SEVERITY := sev; os := EmptyString; t := None;
                              file := f; line := l; level := verb |}]> (loggers w) /\
    verbosity_level w' = verbosity_level w /\
    category_levels w' = category_levels w /\
    constructed w' = S (constructed w) /\
    sink w' = sink w /\
    strings w' = strings w /\
    stale w' = stale w.
Proof.
  eexists _, _. split; [reflexivity|]. simpl.
  split; [|by repeat split].
  apply not_elem_of_dom, is_fresh.
Qed.

Lemma fresh_string (w : World) : strings w !! fresh (dom (strings w)) = None.
Proof. apply not_elem_of_dom, is_fresh. Qed.

(** The logger of a statement from its tagging to its end, for a tag whose
    characters are not touched in between. *)
Lemma tagged_logger_run (w : World) (this : nat) (L : ScLogger)
    (c : type_call) (texts : list string) :
  loggers w !! this = Some L ->
  (this' <~ do_type this c ;
   s <~ get this' ;
   _ <~ put_all s texts ;
   ScLogger_delete this) w
  = Some (tt,
      {| verbosity_level := verbosity_level w;
         category_levels := category_levels w;
         strings := strings w;
         stale := stale w;
         loggers := delete this (loggers w);
         constructed := constructed w;
         sink := sink w ++
           [ {| severity := SEVERITY L; msg_type := category_at w (stored_tag c);
                msg := c_str (os L +:+ concat_texts texts); verbosity := level L;
                file_name := file L; line_number := line L |} ] |}).
Proof.
  intros alive.
  rewrite (bind_run _ _ _ _ _ (do_type_run w this L alive c)).
  match goal with |- bind (get this) _ ?w2 = _ => set (W2 := w2) end.
  assert (A2 : loggers W2 !! this = Some (set_t L (stored_tag c)))
    by apply lookup_insert_eq.
  rewrite (bind_run _ _ _ _ _ (get_run _ _ _ A2)).
  rewrite (bind_run _ _ _ _ _ (put_all_run texts _ _ _ A2)).
  match goal with |- ScLogger_delete this ?w3 = _ => set (W3 := w3) end.
  rewrite (ScLogger_delete_run W3 this _ (lookup_insert_eq _ _ _)).
  subst W3 W2. unfold with_loggers. cbn.
  now rewrite !delete_insert_eq.
Qed.

(** The whole life of the temporary of a macro: one logger more has been
    constructed, one report more has been handed over, and nothing else has
    changed. *)
Lemma logger_statement_run sev verb f l a texts w :
  logger_statement sev verb f l a texts w
  = Some (tt,
      {| verbosity_level := verbosity_level w;
         category_levels := category_levels w;
         strings := strings w;
         stale := stale w;
         loggers := loggers w;
         constructed := S (constructed w);
         sink := sink w ++
           [ {| severity := sev; msg_type := statement_category w a;
                msg := c_str (concat_texts texts); verbosity := verb;
                file_name := f; line_number := l |} ] |}).
Proof.
  unfold logger_statement.
  destruct (ScLogger_new_run sev f l verb w)
    as (this & w1 & Hnew & Hfresh & Hl & Hv & Hc & Hn & Hs & Hstr & Hst).
  rewrite (bind_run _ _ _ _ _ Hnew).
  set (L0 := {| SEVERITY := sev; os := EmptyString; t := None;
                file := f; line := l; level := verb |}) in *.
  assert (A1 : loggers w1 !! this = Some L0)
    by (rewrite Hl; apply lookup_insert_eq).
  assert (D : delete this (loggers w1) = loggers w)
    by (rewrite Hl; now apply delete_insert_id).
  destruct a as [|p|a|chars].
  - change (type_reset this) with (do_type this TypeReset).
    rewrite (tagged_logger_run w1 this L0 TypeReset texts A1).
    cbn. now rewrite D, Hv, Hc, Hn, Hs, Hstr, Hst.
  - change (type_cstr this p) with (do_type this (TypeCStr p)).
    rewrite (tagged_logger_run w1 this L0 (TypeCStr p) texts A1).
    cbn. unfold category_at, read_c_string.
    now rewrite D, Hv, Hc, Hn, Hs, Hstr, Hst.
  - change (type_string this a) with (do_type this (TypeString a)).
    rewrite (tagged_logger_run w1 this L0 (TypeString a) texts A1).
    cbn. unfold read_c_string.
    now rewrite D, Hv, Hc, Hn, Hs, Hstr, Hst.
  - unfold new_string at 1. unfold bind at 1.
    set (tmp := fresh (dom (strings w1))).
    set (W2 := with_strings w1 (<[tmp := chars]> (strings w1))).
    assert (A2 : loggers W2 !! this = Some L0) by exact A1.
    change (type_string this tmp) with (do_type this (TypeString tmp)).
    rewrite (bind_run _ _ _ _ _ (do_type_run W2 this L0 A2 (TypeString tmp))).
    match goal with |- bind (get this) _ ?w3 = _ => set (W3 := w3) end.
    assert (A3 : loggers W3 !! this = Some (set_t L0 (Some tmp)))
      by apply lookup_insert_eq.
    rewrite (bind_run _ _ _ _ _ (get_run _ _ _ A3)).
    rewrite (bind_run _ _ _ _ _ (put_all_run texts _ _ _ A3)).
    unfold delete_string at 1. unfold bind at 1.
    match goal with |- ScLogger_delete this ?w5 = _ => set (W5 := w5) end.
    rewrite (ScLogger_delete_run W5 this _ (lookup_insert_eq _ _ _)).
    subst W5 W3 W2. unfold with_loggers, with_strings. cbn.
    unfold read_c_string. cbn.
    subst tmp.
    rewrite lookup_delete_eq, !delete_insert_eq, D.
    rewrite (delete_id _ _ (fresh_string w1)).
    now rewrite Hv, Hc, Hn, Hs, Hstr, Hst.
Qed.

End LoggerFacts.

(** ** The logging macros and the life of a logger *)

Module MacroFacts.

Import Logger LoggerFacts.

(** A temporary string that is made and destroyed again leaves the state as
    it was, and while it lives its characters are read as they were
    given. *)
Lemma temporary_string_run (w : World) (s : string) :
  let tmp := fresh (dom (strings w)) in
  new_string s w = Some (tmp, with_strings w (<[tmp := s]> (strings w))) /\
  read_c_string (with_strings w (<[tmp := s]> (strings w))) tmp = c_str s /\
  with_strings (with_strings w (<[tmp := s]> (strings w)))
    (delete tmp (<[tmp := s]> (strings w))) = w.
Proof.
  intros tmp. split; [reflexivity|]. split.
  - unfold read_c_string. cbn. now rewrite lookup_insert_eq.
  - unfold with_strings. cbn.
    rewrite (delete_insert_id _ _ _ (fresh_string w)). now destruct w.
Qed.

(** The verbosity a macro reads is the effective level of its category. *)
Lemma get_log_verbosity_of_run (a : tag_arg) (w : World) :
  get_log_verbosity_of a w = Some (effective_level w a, w).
Proof.
  destruct a as [|[p|]|a|s]; simpl; try reflexivity.
  - unfold get_log_verbosity_cstr, effective_level. simpl.
    now destruct (category_levels w !! read_c_string w p).
  - unfold get_log_verbosity_string, get_log_verbosity_cstr, effective_level.
    simpl. now destruct (category_levels w !! read_c_string w a).
  - destruct (temporary_string_run w s) as (Hnew & Hread & Hback).
    rewrite (bind_run _ _ _ _ _ Hnew).
    unfold get_log_verbosity_string, get_log_verbosity_cstr, bind at 1.
    rewrite Hread. unfold effective_level. simpl.
    change (category_levels (with_strings w
              (<[fresh (dom (strings w)) := s]> (strings w))))
      with (category_levels w).
    destruct (category_levels w !! c_str s); simpl;
      unfold bind, delete_string, ret; simpl;
      change (strings (with_strings w
                (<[fresh (dom (strings w)) := s]> (strings w))))
        with (<[fresh (dom (strings w)) := s]> (strings w));
      now rewrite Hback.
Qed.

Lemma run_tiered_gated (m : tiered_macro) :
  run_tiered m = gated_statement (requested_level m).
Proof. now destruct m. Qed.

(** A statement of a tiered macro, run: the temporary lives when the level
    suffices, and nothing at all happens otherwise. *)
Lemma gated_statement_run threshold f l a texts w :
  gated_statement threshold f l a texts w
  = if threshold <=? effective_level w a
    then logger_statement SC_INFO (threshold / 10) f l a texts w
    else Some (tt, w).
Proof.
  unfold gated_statement.
  rewrite (bind_run _ _ _ _ _ (get_log_verbosity_of_run a w)).
  now destruct (threshold <=? effective_level w a).
Qed.

Lemma snoc_not_same {A} (xs : list A) (x : A) : xs <> xs ++ [x].
Proof.
  intros E. apply (f_equal length) in E. rewrite length_app in E.
  simpl in E. lia.
Qed.

(** C1. In every state of the verbosity settings, a statement of a tiered
    macro ([SCCTRACEALL], [SCCTRACE], [SCCDEBUG], [SCCINFO]), with or without
    a category, hands over a report exactly when the effective level of its
    category (the level registered for the category if there is one, the
    global level otherwise) is at least the level the macro asks for; when
    it is not, no [ScLogger] is constructed and the state is untouched. *)
Theorem tiered_macro_emits_iff_level_suffices
    (m : tiered_macro) (f : string) (l : Z) (a : tag_arg)
    (texts : list string) (w : World) :
  exists w',
    run_tiered m f l a texts w = Some (tt, w') /\
    (requested_level m <= effective_level w a <->
       exists r, sink w' = sink w ++ [r]) /\
    (requested_level m <= effective_level w a ->
       constructed w' = S (constructed w)) /\
    (effective_level w a < requested_level m ->
       constructed w' = constructed w /\ w' = w).
Proof.
  rewrite run_tiered_gated, gated_statement_run.
  destruct (Z.leb_spec (requested_level m) (effective_level w a)) as [Hle|Hlt].
  - rewrite logger_statement_run. eexists. split; [reflexivity|]. simpl.
    split; [|split; [reflexivity|lia]].
    split; [intros _; eexists; reflexivity | intros _; exact Hle].
  - exists w. split; [reflexivity|].
    split; [|split; [lia|now intros _]].
    split; [lia|]. intros [r Hr]. now apply snoc_not_same in Hr.
Qed.

(** What a tiered macro reports when it reports: an [SC_INFO] report whose
    verbosity is a tenth of the level the macro asks for. *)
Lemma tiered_macro_report m f l a texts w :
  requested_level m <= effective_level w a ->
  exists w',
    run_tiered m f l a texts w = Some (tt, w') /\
    sink w' = sink w ++
      [ {| severity := SC_INFO; msg_type := statement_category w a;
           msg := c_str (concat_texts texts);
           verbosity := requested_level m / 10;
           file_name := f; line_number := l |} ].
Proof.
  intros Hle. rewrite run_tiered_gated, gated_statement_run.
  destruct (Z.leb_spec (requested_level m) (effective_level w a)); [|lia].
  rewrite logger_statement_run. eexists. split; reflexivity.
Qed.

Lemma run_ungated_run (m : ungated_macro) f l a texts w :
  run_ungated m f l a texts w
  = Some (tt,
      {| verbosity_level := verbosity_level w;
         category_levels := category_levels w;
         strings := strings w;
         stale := stale w;
         loggers := loggers w;
         constructed := S (constructed w);
         sink := sink w ++
           [ {| severity := severity_of m; msg_type := statement_category w a;
                msg := c_str (concat_texts texts); verbosity := SC_MEDIUM;
                file_name := f; line_number := l |} ] |}).
Proof.
  destruct m; simpl; unfold SCCWARN, SCCERR, SCCFATAL;
    now rewrite logger_statement_run.
Qed.

(** C2. In every state of the verbosity settings (any global level, any
    levels registered for categories) and for every argument, a statement of
    [SCCWARN], [SCCERR] or [SCCFATAL] constructs a logger and hands over its
    report, of the severity of the macro and with the text written: no
    verbosity is consulted. *)
Theorem ungated_macro_always_reports
    (m : ungated_macro) (f : string) (l : Z) (a : tag_arg)
    (texts : list string) (w : World) :
  exists w' r,
    run_ungated m f l a texts w = Some (tt, w') /\
    constructed w' = S (constructed w) /\
    sink w' = sink w ++ [r] /\
    severity r = severity_of m /\
    msg r = c_str (concat_texts texts) /\
    verbosity r = SC_MEDIUM /\
    file_name r = f /\
    line_number r = l.
Proof.
  rewrite run_ungated_run. eexists _, _. repeat split.
Qed.

(** The category a statement reports is the C string its argument points
    to, as long as the characters exist beside the statement.  The
    characters of a temporary [std::string] argument do not: they are gone
    when the destructor of the logger reads them, and the report carries
    what is left at their address. *)
Lemma statement_category_reported (m : ungated_macro) f l a texts w :
  exists w' r,
    run_ungated m f l a texts w = Some (tt, w') /\
    sink w' = sink w ++ [r] /\
    msg_type r = match a with
                 | NoArg | CStrArg None => "SystemC"
                 | CStrArg (Some p) | StringArg p => read_c_string w p
                 | StringTemp _ => c_str (stale w (fresh (dom (strings w))))
                 end.
Proof.
  rewrite run_ungated_run. eexists _, _. split; [reflexivity|].
  split; [reflexivity|]. now destruct a as [|[p|]|p|s].
Qed.

(** For one: [SCCWARN] with a temporary holding [BUS] reports the bytes
    left behind, not [BUS]. *)
Lemma temporary_category_is_lost :
  exists w' r,
    SCCWARN "top.cpp" 3 (StringTemp "BUS") ["late"] quiet_world = Some (tt, w') /\
    sink w' = [r] /\
    msg_type r = "#@!".
Proof.
  change SCCWARN with (run_ungated MWARN).
  rewrite run_ungated_run. eexists _, _. repeat split.
Qed.

End MacroFacts.

(** ** One logger from construction to destruction *)

Module LifetimeFacts.

Import Logger LoggerFacts.

Lemma nul_free_append (a b : string) :
  nul_free (a +:+ b) = nul_free a && nul_free b.
Proof.
  induction a as [|x a IH]; [reflexivity|].
  rewrite append_cons. simpl. rewrite IH. now destruct (is_nul x).
Qed.

Lemma nul_free_concat (texts : list string) :
  forallb nul_free texts = true -> nul_free (concat_texts texts) = true.
Proof.
  induction texts as [|x texts IH]; simpl; [reflexivity|].
  intros [Hx Hr]%andb_prop.
  change (concat_texts (x :: texts)) with (x +:+ concat_texts texts).
  now rewrite nul_free_append, Hx, IH.
Qed.

Ltac sink_kept :=
  intros w ? w';
  unfold type_reset, type_cstr, type_string, get, put, bind, deref, assign, ret;
  destruct (loggers w !! _) eqn:E; [|discriminate];
  simpl; try rewrite E; intros [= <- <-]; reflexivity.

Lemma get_keeps_sink this : keeps_sink (get this).
Proof. sink_kept. Qed.

Lemma do_type_keeps_sink this c : keeps_sink (do_type this c).
Proof. destruct c as [|p|p]; simpl; sink_kept. Qed.

Lemma put_keeps_sink this x : keeps_sink (put this x).
Proof. sink_kept. Qed.

Lemma put_all_keeps_sink texts : forall this, keeps_sink (put_all this texts).
Proof.
  induction texts as [|x texts IH]; intros this w a w'; simpl.
  - now intros [= <- <-].
  - unfold bind at 1. destruct (put this x w) as [[s w1]|] eqn:E; [|discriminate].
    intros H. rewrite (IH _ _ _ _ H). apply (put_keeps_sink _ _ _ _ _ E).
Qed.

Lemma ScLogger_new_keeps_sink sev f l verb : keeps_sink (ScLogger_new sev f l verb).
Proof. intros w a w'. unfold ScLogger_new. now intros [= <- <-]. Qed.

(** The life of one logger, run. *)
Lemma logger_lifetime_run sev f l verb texts w :
  logger_lifetime sev f l verb texts w
  = Some (tt,
      {| verbosity_level := verbosity_level w;
         category_levels := category_levels w;
         strings := strings w;
         stale := stale w;
         loggers := loggers w;
         constructed := S (constructed w);
         sink := sink w ++
           [ {| severity := sev; msg_type := "SystemC";
                msg := c_str (concat_texts texts); verbosity := verb;
                file_name := f; line_number := l |} ] |}).
Proof.
  unfold logger_lifetime.
  destruct (ScLogger_new_run sev f l verb w)
    as (this & w1 & Hnew & Hfresh & Hl & Hv & Hc & Hn & Hs & Hstr & Hst).
  rewrite (bind_run _ _ _ _ _ Hnew).
  assert (A1 : loggers w1 !! this = Some {| SEVERITY := sev; os := EmptyString;
              t := None; file := f; line := l; level := verb |})
    by (rewrite Hl; apply lookup_insert_eq).
  rewrite (bind_run _ _ _ _ _ (get_run _ _ _ A1)).
  rewrite (bind_run _ _ _ _ _ (put_all_run texts _ _ _ A1)).
  match goal with |- ScLogger_delete this ?w3 = _ => set (W3 := w3) end.
  rewrite (ScLogger_delete_run W3 this _ (lookup_insert_eq _ _ _)).
  subst W3. unfold with_loggers. cbn.
  rewrite Hl, !delete_insert_eq, (delete_id _ _ Hfresh), Hv, Hc, Hn, Hs, Hstr, Hst.
  reflexivity.
Qed.

(** C3, as amended. Constructing a logger, writing to its stream any number
    of times and destroying it hands over exactly one report; its message is
    the concatenation of the writes in order, read as a C string: cut before
    the first NUL, and the whole concatenation when the writes hold no NUL.
    Construction, [type], [get] and the writes hand over nothing. *)
Theorem logger_reports_once_at_destruction
    (sev : sc_severity) (f : string) (l verb : Z) (texts : list string)
    (w : World) :
  (exists w',
     logger_lifetime sev f l verb texts w = Some (tt, w') /\
     sink w' = sink w ++
       [ {| severity := sev; msg_type := "SystemC";
            msg := c_str (concat_texts texts); verbosity := verb;
            file_name := f; line_number := l |} ]) /\
  (forallb nul_free texts = true ->
     c_str (concat_texts texts) = concat_texts texts) /\
  keeps_sink (ScLogger_new sev f l verb) /\
  (forall this,
     keeps_sink (get this) /\
     (forall c, keeps_sink (do_type this c)) /\
     (forall x, keeps_sink (put this x)) /\
     keeps_sink (put_all this texts)).
Proof.
  split; [rewrite logger_lifetime_run; eexists; split; reflexivity|].
  split; [intros H; apply c_str_nul_free, nul_free_concat, H|].
  split; [apply ScLogger_new_keeps_sink|].
  intros this. split; [apply get_keeps_sink|].
  split; [intros c; apply do_type_keeps_sink|].
  split; [intros x; apply put_keeps_sink|apply put_all_keeps_sink].
Qed.

(** C3, counterexample. One write of [a], NUL, [b]: the report carries the
    message [a], which is not the text written. *)
Lemma logger_message_cut_at_nul_counterexample :
  exists w' r,
    logger_lifetime SC_INFO "top.cpp" 7 SC_MEDIUM [a_nul_b] quiet_world
    = Some (tt, w') /\
    sink w' = [r] /\
    msg r = "a" /\
    msg r <> concat_texts [a_nul_b].
Proof.
  rewrite logger_lifetime_run. eexists _, _.
  split; [reflexivity|]. split; [reflexivity|]. split; [reflexivity|].
  discriminate.
Qed.

(** A call of [type] followed by the destructor: the report carries the C
    string found where the call pointed, or the default. *)
Lemma tagged_then_destroyed_run (w : World) (this : nat) (L : ScLogger)
    (c : type_call) :
  loggers w !! this = Some L ->
  tagged_then_destroyed w this c (category_at w (stored_tag c)).
Proof.
  intros alive. unfold tagged_then_destroyed. eexists _, _, _.
  split; [apply (do_type_run w this L alive c)|].
  match goal with |- ScLogger_delete this ?w1 = _ /\ _ => set (W1 := w1) end.
  rewrite (ScLogger_delete_run W1 this _ (lookup_insert_eq _ _ _)).
  split; [reflexivity|]. split; reflexivity.
Qed.

Lemma read_c_string_alive (w : World) (p : nat) (s : string) :
  strings w !! p = Some s -> read_c_string w p = c_str s.
Proof. unfold read_c_string. now intros ->. Qed.

(** C8, as amended. A logger whose tag is unset when it is destroyed (never
    set since construction, cleared by [type()], or set from a null pointer)
    reports the one fallback category [SystemC].  A logger whose tag was set
    by [type] of a [char const*] or of a [std::string], to characters that
    are alive when the logger is destroyed, reports those characters read as
    a C string: exactly the tag when it holds no NUL, the tag cut before its
    first NUL otherwise. *)
Theorem destructor_reports_tag_or_fallback
    (w : World) (this : nat) (L : ScLogger)
    (alive : loggers w !! this = Some L) :
  (exists w' r,
     ScLogger_delete this w = Some (tt, w') /\
     sink w' = sink w ++ [r] /\
     (t L = None -> msg_type r = "SystemC") /\
     (forall p s, t L = Some p -> strings w !! p = Some s ->
        msg_type r = c_str s)) /\
  (forall sev f l verb, exists this0 w0,
     ScLogger_new sev f l verb w = Some (this0, w0) /\
     t <$> loggers w0 !! this0 = Some None) /\
  tagged_then_destroyed w this TypeReset "SystemC" /\
  tagged_then_destroyed w this (TypeCStr None) "SystemC" /\
  (forall p s, strings w !! p = Some s ->
     tagged_then_destroyed w this (TypeCStr (Some p)) (c_str s) /\
     tagged_then_destroyed w this (TypeString p) (c_str s) /\
     (nul_free s = true -> c_str s = s)).
Proof.
  split; [|split; [|split; [|split]]].
  - rewrite (ScLogger_delete_run w this L alive). eexists _, _.
    split; [reflexivity|]. split; [reflexivity|]. simpl.
    split; [now intros ->|].
    intros p s -> Hs. simpl. now apply read_c_string_alive.
  - intros sev f l verb.
    destruct (ScLogger_new_run sev f l verb w)
      as (this0 & w0 & Hnew & _ & Hl & _).
    exists this0, w0. split; [exact Hnew|].
    now rewrite Hl, lookup_insert_eq.
  - apply (tagged_then_destroyed_run w this L TypeReset alive).
  - apply (tagged_then_destroyed_run w this L (TypeCStr None) alive).
  - intros p s Hs. rewrite <- (read_c_string_alive w p s Hs).
    split; [apply (tagged_then_destroyed_run w this L (TypeCStr (Some p)) alive)|].
    split; [apply (tagged_then_destroyed_run w this L (TypeString p) alive)|].
    rewrite (read_c_string_alive w p s Hs). apply c_str_nul_free.
Qed.

Lemma destructor_reports_tag_or_fallback_witness :
  loggers one_logger_world !! 0%nat = Some bus_logger /\
  ((exists w' r,
      ScLogger_delete 0 one_logger_world = Some (tt, w') /\
      sink w' = sink one_logger_world ++ [r] /\
      (t bus_logger = None -> msg_type r = "SystemC") /\
      (forall p s, t bus_logger = Some p ->
         strings one_logger_world !! p = Some s -> msg_type r = c_str s)) /\
   (forall sev f l verb, exists this0 w0,
      ScLogger_new sev f l verb one_logger_world = Some (this0, w0) /\
      t <$> loggers w0 !! this0 = Some None) /\
   tagged_then_destroyed one_logger_world 0 TypeReset "SystemC" /\
   tagged_then_destroyed one_logger_world 0 (TypeCStr None) "SystemC" /\
   (forall p s, strings one_logger_world !! p = Some s ->
      tagged_then_destroyed one_logger_world 0 (TypeCStr (Some p)) (c_str s) /\
      tagged_then_destroyed one_logger_world 0 (TypeString p) (c_str s) /\
      (nul_free s = true -> c_str s = s))).
Proof.
  split; [reflexivity|].
  apply (destructor_reports_tag_or_fallback one_logger_world 0 bus_logger).
  reflexivity.
Defined.

(** C8, counterexample. The logger is tagged with the [std::string] at
    address 6, which is alive and holds [BUS], NUL, [x]; the report carries
    [BUS], not that tag. *)
Lemma tag_with_nul_not_carried_counterexample :
  strings one_logger_world !! 6%nat = Some bus_nul_x /\
  tagged_then_destroyed one_logger_world 0 (TypeString 6) "BUS" /\
  "BUS" <> bus_nul_x.
Proof.
  split; [reflexivity|]. split; [|discriminate].
  apply (tagged_then_destroyed_run one_logger_world 0 bus_logger (TypeString 6)).
  reflexivity.
Qed.

(** A tag whose characters are destroyed before the logger is: the
    destructor reads where they were. *)
Lemma tag_outlived_run (w : World) (this : nat) (L : ScLogger) (chars : string) :
  loggers w !! this = Some L ->
  exists w' r,
    Scenarios.tag_outlived this chars w = Some (tt, w') /\
    sink w' = sink w ++ [r] /\
    msg_type r = c_str (stale w (fresh (dom (strings w)))).
Proof.
  intros alive. unfold Scenarios.tag_outlived.
  unfold new_string at 1. unfold bind at 1.
  set (tmp := fresh (dom (strings w))).
  set (W1 := with_strings w (<[tmp := chars]> (strings w))).
  assert (A1 : loggers W1 !! this = Some L) by exact alive.
  change (type_string this tmp) with (do_type this (TypeString tmp)).
  rewrite (bind_run _ _ _ _ _ (do_type_run W1 this L A1 (TypeString tmp))).
  unfold delete_string at 1. unfold bind at 1.
  match goal with |- context [ScLogger_delete this ?w3] => set (W3 := w3) end.
  rewrite (ScLogger_delete_run W3 this _ (lookup_insert_eq _ _ _)).
  eexists _, _. split; [reflexivity|]. split; [reflexivity|].
  subst W3 W1. cbn. unfold read_c_string. cbn.
  now rewrite lookup_delete_eq.
Qed.

(** A chain of [type] calls followed by the destructor, run. *)
Lemma type_chain_then_delete (w : World) (this : nat) (L : ScLogger)
    (calls : list type_call) (c : type_call) :
  loggers w !! this = Some L ->
  exists w1 w2,
    type_chain this (calls ++ [c]) w
    = Some (replicate (length (calls ++ [c])) this, w1) /\
    ScLogger_delete this w1 = Some (tt, w2) /\
    sink w2 = sink w ++
      [ {| severity := SEVERITY L; msg_type := category_at w (stored_tag c);
           msg := c_str (os L); verbosity := level L;
           file_name := file L; line_number := line L |} ].
Proof.
  intros alive. eexists _, _.
  split; [apply (type_chain_run _ w this L alive)|].
  rewrite last_snoc. simpl.
  match goal with |- ScLogger_delete this ?w1 = _ /\ _ => set (W1 := w1) end.
  rewrite (ScLogger_delete_run W1 this _ (lookup_insert_eq _ _ _)).
  split; reflexivity.
Qed.

(** C9, as amended. In a chain of calls of [type] on a logger, each call
    returns the logger it was called on, and the category reported at
    destruction is fixed by the last call alone: the default after [type()]
    and after [type] of a null [char const*]; after [type] of a non-null
    [char const*] or of a [std::string] whose characters are alive when the
    logger is destroyed, those characters read as a C string, that is, cut
    before their first NUL. *)
Theorem type_chain_last_call_wins
    (w : World) (this : nat) (L : ScLogger)
    (calls : list type_call) (c : type_call)
    (alive : loggers w !! this = Some L) :
  exists rets w1 w2 r,
    type_chain this (calls ++ [c]) w = Some (rets, w1) /\
    length rets = length (calls ++ [c]) /\
    Forall (fun ret => ret = this) rets /\
    ScLogger_delete this w1 = Some (tt, w2) /\
    sink w2 = sink w ++ [r] /\
    match c with
    | TypeReset | TypeCStr None => msg_type r = "SystemC"
    | TypeCStr (Some p) | TypeString p =>
        forall s, strings w !! p = Some s ->
          msg_type r = c_str s /\ (nul_free s = true -> msg_type r = s)
    end.
Proof.
  destruct (type_chain_then_delete w this L calls c alive)
    as (w1 & w2 & Hchain & Hdel & Hsink).
  eexists _, w1, w2, _. split; [exact Hchain|].
  split; [apply length_replicate|].
  split; [apply Forall_replicate; reflexivity|].
  split; [exact Hdel|]. split; [exact Hsink|].
  cbn [msg_type].
  destruct c as [|[p|]|p]; try reflexivity;
    intros s Hs; cbn; rewrite (read_c_string_alive w p s Hs);
    (split; [reflexivity|apply c_str_nul_free]).
Qed.

Lemma type_chain_last_call_wins_witness :
  loggers one_logger_world !! 0%nat = Some bus_logger /\
  exists rets w1 w2 r,
    type_chain 0 ([TypeReset; TypeString 7] ++ [TypeCStr (Some 5%nat)])
      one_logger_world = Some (rets, w1) /\
    length rets
    = length ([TypeReset; TypeString 7] ++ [TypeCStr (Some 5%nat)]) /\
    Forall (fun ret => ret = 0%nat) rets /\
    ScLogger_delete 0 w1 = Some (tt, w2) /\
    sink w2 = sink one_logger_world ++ [r] /\
    (forall s, strings one_logger_world !! 5%nat = Some s ->
       msg_type r = c_str s /\ (nul_free s = true -> msg_type r = s)).
Proof.
  split; [reflexivity|].
  apply (type_chain_last_call_wins one_logger_world 0 bus_logger
           [TypeReset; TypeString 7] (TypeCStr (Some 5%nat))).
  reflexivity.
Defined.

(** C9, counterexample. After the single call [type] of the [std::string]
    at address 6, alive and holding [BUS], NUL, [x], the report carries the
    category [BUS], which is not the argument; and after [type] of a null
    [char const*], a call with an argument, it carries the default. *)
Lemma type_argument_not_reported_counterexample :
  (strings one_logger_world !! 6%nat = Some bus_nul_x /\
   exists rets w1 w2 r,
     type_chain 0 [TypeString 6] one_logger_world = Some (rets, w1) /\
     ScLogger_delete 0 w1 = Some (tt, w2) /\
     sink w2 = [r] /\
     msg_type r = "BUS" /\
     msg_type r <> bus_nul_x) /\
  (exists rets w1 w2 r,
     type_chain 0 [TypeCStr (Some 7%nat); TypeCStr None] one_logger_world
     = Some (rets, w1) /\
     ScLogger_delete 0 w1 = Some (tt, w2) /\
     sink w2 = [r] /\
     msg_type r = "SystemC").
Proof.
  assert (alive : loggers one_logger_world !! 0%nat = Some bus_logger)
    by reflexivity.
  split; [split; [reflexivity|]|].
  - destruct (type_chain_then_delete _ _ _ [] (TypeString 6) alive)
      as (w1 & w2 & Hchain & Hdel & Hsink).
    eexists _, w1, w2, _. split; [exact Hchain|]. split; [exact Hdel|].
    split; [exact Hsink|]. split; [reflexivity|discriminate].
  - destruct (type_chain_then_delete _ _ _ [TypeCStr (Some 7%nat)]
                (TypeCStr None) alive)
      as (w1 & w2 & Hchain & Hdel & Hsink).
    eexists _, w1, w2, _. split; [exact Hchain|]. split; [exact Hdel|].
    split; [exact Hsink|reflexivity].
Qed.

End LifetimeFacts.

(** ** Stream redirection *)

Module RedirectFacts.

Import Redirect.

(** Every newline written forwards one record, and nothing else does. *)
Lemma xsputn_one_record_per_newline (s : string) : forall r,
  length (forwarded (xsputn r s))
  = (length (forwarded r) + count_newlines s)%nat.
Proof.
  induction s as [|c s IH]; intros r; simpl; [lia|].
  destruct (Ascii.eqb c newline); rewrite IH; simpl.
  - rewrite length_app. simpl. lia.
  - reflexivity.
Qed.

(** Writing leaves the captured buffer, the binding of the stream and the
    level alone. *)
Lemma xsputn_frame (s : string) : forall r,
  os_rdbuf (xsputn r s) = os_rdbuf r /\
  old_buf (xsputn r s) = old_buf r /\
  level (xsputn r s) = level r /\
  restored (xsputn r s) = restored r.
Proof.
  induction s as [|c s IH]; intros r; simpl; [easy|].
  destruct (Ascii.eqb c newline);
    destruct (IH (forward r)) as (?&?&?&?);
    destruct (IH (hold r c)) as (?&?&?&?); easy.
Qed.

(** A second [reset] finds no captured buffer. *)
Lemma reset_idempotent (r : stream_redirection) : reset (reset r) = reset r.
Proof.
  unfold reset. destruct (old_buf r) eqn:E; simpl; [reflexivity|].
  now rewrite E.
Qed.

(** C6. Under an active session with nothing held, writing the two lines
    [abc] and [def], each ended by a newline, forwards exactly two records,
    with the texts [abc] and [def], at the level of the session and without
    a category, and leaves nothing held; writing [abc] alone forwards
    nothing, and the record [abc] is forwarded once a newline is written, the
    stream is flushed, or the session is reset. *)
Theorem redirect_forwards_complete_lines
    (r : stream_redirection) (b : streambuf)
    (bound : os_rdbuf r = Intercepting)
    (captured : old_buf r = Some b)
    (nothing_held : held r = EmptyString) :
  (forwarded (write r abc_def_lines)
   = forwarded r ++ [line (level r) "abc"; line (level r) "def"] /\
   held (write r abc_def_lines) = EmptyString) /\
  forwarded (write r "abc") = forwarded r /\
  forwarded (write (write r "abc") end_of_line)
  = forwarded r ++ [line (level r) "abc"] /\
  forwarded (flush (write r "abc")) = forwarded r ++ [line (level r) "abc"] /\
  forwarded (reset (write r "abc")) = forwarded r ++ [line (level r) "abc"].
Proof.
  destruct r as [rb lvl ob h fw rs po]. simpl in *. subst rb ob h.
  unfold write, flush, reset, line. cbn.
  rewrite <- app_assoc. repeat split.
Qed.

Lemma redirect_forwards_complete_lines_witness :
  os_rdbuf (start (Original 1) INFO) = Intercepting /\
  old_buf (start (Original 1) INFO) = Some (Original 1) /\
  held (start (Original 1) INFO) = EmptyString /\
  ((forwarded (write (start (Original 1) INFO) abc_def_lines)
    = forwarded (start (Original 1) INFO)
      ++ [line (level (start (Original 1) INFO)) "abc";
          line (level (start (Original 1) INFO)) "def"] /\
    held (write (start (Original 1) INFO) abc_def_lines) = EmptyString) /\
   forwarded (write (start (Original 1) INFO) "abc")
   = forwarded (start (Original 1) INFO) /\
   forwarded (write (write (start (Original 1) INFO) "abc") end_of_line)
   = forwarded (start (Original 1) INFO)
     ++ [line (level (start (Original 1) INFO)) "abc"] /\
   forwarded (flush (write (start (Original 1) INFO) "abc"))
   = forwarded (start (Original 1) INFO)
     ++ [line (level (start (Original 1) INFO)) "abc"] /\
   forwarded (reset (write (start (Original 1) INFO) "abc"))
   = forwarded (start (Original 1) INFO)
     ++ [line (level (start (Original 1) INFO)) "abc"]).
Proof.
  split; [reflexivity|]. split; [reflexivity|]. split; [reflexivity|].
  apply (redirect_forwards_complete_lines (start (Original 1) INFO) (Original 1));
    reflexivity.
Defined.

(** C7. When [reset] is called twice on a session that holds a captured
    buffer, the first call puts that buffer back into the stream and the
    second changes nothing: the buffer is put back once.  The destructor
    puts the buffer back when [reset] was not called, and changes nothing
    when it was. *)
Theorem reset_twice_restores_once
    (r : stream_redirection) (b : streambuf)
    (captured : old_buf r = Some b) :
  (restored (reset r) = restored r ++ [b] /\
   os_rdbuf (reset r) = b /\
   old_buf (reset r) = None) /\
  (reset (reset r) = reset r /\
   restored (reset (reset r)) = restored r ++ [b]) /\
  (restored (destroy r) = restored r ++ [b] /\ os_rdbuf (destroy r) = b) /\
  destroy (reset r) = reset r.
Proof.
  assert (Hs : restored (sync r) = restored r)
    by (unfold sync; now destruct (held r)).
  unfold destroy. rewrite reset_idempotent.
  unfold reset. rewrite captured. simpl. rewrite Hs. easy.
Qed.

Lemma reset_twice_restores_once_witness :
  old_buf (start (Original 1) WARNING) = Some (Original 1) /\
  ((restored (reset (start (Original 1) WARNING))
    = restored (start (Original 1) WARNING) ++ [Original 1] /\
    os_rdbuf (reset (start (Original 1) WARNING)) = Original 1 /\
    old_buf (reset (start (Original 1) WARNING)) = None) /\
   (reset (reset (start (Original 1) WARNING)) = reset (start (Original 1) WARNING) /\
    restored (reset (reset (start (Original 1) WARNING)))
    = restored (start (Original 1) WARNING) ++ [Original 1]) /\
   (restored (destroy (start (Original 1) WARNING))
    = restored (start (Original 1) WARNING) ++ [Original 1] /\
    os_rdbuf (destroy (start (Original 1) WARNING)) = Original 1) /\
   destroy (reset (start (Original 1) WARNING)) = reset (start (Original 1) WARNING)).
Proof.
  split; [reflexivity|].
  apply (reset_twice_restores_once (start (Original 1) WARNING) (Original 1)).
  reflexivity.
Defined.

End RedirectFacts.

(** ** More on [as_log], [operator<<] and [operator>>] *)

Module LevelMore.

Import LevelFacts LoggerFacts.

Lemma as_log_defined_in_range (i : Z) : 0 <= i <= 7 -> is_Some (as_log i).
Proof.
  intros Hi.
  assert (E : i = 0 \/ i = 1 \/ i = 2 \/ i = 3 \/
              i = 4 \/ i = 5 \/ i = 6 \/ i = 7) by lia.
  destruct E as [->|[->|[->|[->|[->|[->|[->| ->]]]]]]]; by eexists.
Qed.

(** X1. [as_log] fails (its assertion does not hold) exactly for the
    integers below 0 or above 7. *)
Theorem as_log_fails_exactly_out_of_range (i : Z) :
  as_log i = None <-> i < 0 \/ 7 < i.
Proof.
  split; [|apply as_log_out_of_range].
  intros H. destruct (Z_lt_dec i 0); [now left|].
  destruct (Z_lt_dec 7 i); [now right|].
  destruct (as_log_defined_in_range i) as [l Hl]; [lia|congruence].
Qed.

(** X2. [operator>>] never runs into the assertion of [as_log] nor outside
    the array [buffer]: on every stream and variable it returns, with the
    stream as the extraction of the token left it. *)
Theorem read_log_always_returns (ins : istream) (val : log) :
  exists v, read_log ins val = Some ((extract_string ins).1, v).
Proof.
  unfold read_log. destruct (extract_string ins) as [ins' buf].
  destruct (scan_names_total buf val) as [v ->]. by eexists.
Qed.

(** What the loop stores: the level the token spells, or the old value when
    it spells none. *)
Lemma scan_names_sound (buf : string) (val v : log) :
  scan_names buf 0 (S (log_to_nat TRACEALL)) val = Some v ->
  c_str buf = canonical_name v \/
  (v = val /\ forall l, c_str buf <> canonical_name l).
Proof.
  simpl. rewrite !strcmp_eqb.
  repeat (case_bool_decide; [intros [= <-]; now left|]).
  intros [= <-]. right. split; [reflexivity|].
  intros l; destruct l; assumption.
Qed.

(** X3. [operator>>] stores a level only when the token, read as a C
    string, spells the name of that level; in every other case the variable
    keeps its value. *)
Theorem read_log_stores_only_spelled_levels
    (ins ins' : istream) (val v : log)
    (Hread : read_log ins val = Some (ins', v)) :
  c_str (extract_string ins).2 = canonical_name v \/
  (v = val /\ forall l, c_str (extract_string ins).2 <> canonical_name l).
Proof.
  unfold read_log in Hread. destruct (extract_string ins) as [ins1 buf].
  cbn [snd].
  destruct (scan_names buf 0 _ val) as [v'|] eqn:E; [|discriminate].
  injection Hread as _ <-. now apply scan_names_sound.
Qed.

Lemma read_log_stores_only_spelled_levels_witness :
  read_log (of_string "DEBUG fast") NONE
  = Some ((extract_string (of_string "DEBUG fast")).1, DEBUG) /\
  (c_str (extract_string (of_string "DEBUG fast")).2 = canonical_name DEBUG \/
   (DEBUG = NONE /\
    forall l, c_str (extract_string (of_string "DEBUG fast")).2
              <> canonical_name l)).
Proof.
  split; [reflexivity|].
  apply (read_log_stores_only_spelled_levels (of_string "DEBUG fast")
           (extract_string (of_string "DEBUG fast")).1 NONE DEBUG).
  reflexivity.
Defined.

Lemma skip_ws_all_space (ws s : string) :
  all_space ws = true -> skip_ws (ws +:+ s) = skip_ws s.
Proof.
  induction ws as [|c ws IH]; [reflexivity|]. simpl.
  intros [Hc Hr]%andb_prop. rewrite ?append_cons. simpl. rewrite Hc. auto.
Qed.

Lemma skip_ws_blank (ws : string) :
  all_space ws = true -> skip_ws ws = EmptyString.
Proof.
  induction ws as [|c ws IH]; [reflexivity|]. simpl.
  intros [Hc Hr]%andb_prop. rewrite Hc. auto.
Qed.

Lemma take_word_no_space (w rest : string) :
  no_space w = true -> word_ends rest = true ->
  take_word (w +:+ rest) = (w, rest).
Proof.
  intros Hw Hr. induction w as [|c w IH].
  - change (EmptyString +:+ rest) with rest.
    destruct rest as [|c r]; [reflexivity|]. simpl in *. now rewrite Hr.
  - simpl in Hw. apply andb_prop in Hw as [Hc Hw].
    rewrite ?append_cons. simpl.
    destruct (isspace c); [discriminate|]. now rewrite (IH Hw).
Qed.

Lemma canonical_name_shape (v : log) :
  no_space (canonical_name v) = true /\
  nul_free (canonical_name v) = true /\
  exists c r, canonical_name v = String c r /\ isspace c = false.
Proof. destruct v; (split; [reflexivity|split; [reflexivity|]]); by eexists _, _. Qed.

(** The extraction of a word that stands after white space and ends at white
    space or at the end of the text. *)
Lemma extract_string_word (ins : istream) (ws w rest : string) :
  good ins = true ->
  unread ins = ws +:+ w +:+ rest ->
  all_space ws = true -> no_space w = true -> w <> EmptyString ->
  word_ends rest = true ->
  extract_string ins
  = ({| unread := rest; eofbit := is_empty rest; failbit := false;
        badbit := badbit ins |}, w).
Proof.
  intros Hg Hu Hws Hw Hne Hr. unfold extract_string.
  rewrite Hg, Hu, (skip_ws_all_space _ _ Hws).
  destruct w as [|c w]; [congruence|].
  rewrite append_cons. simpl in Hw. apply andb_prop in Hw as [Hc Hw].
  apply negb_true_iff in Hc.
  cbn [skip_ws]. rewrite Hc.
  rewrite <- append_cons, (take_word_no_space (String c w) rest);
    [|simpl; now rewrite Hc, Hw|exact Hr].
  now destruct rest.
Qed.

(** X4. On a new [std::istringstream], whose flags are the defaults,
    [operator>>] skips white space before the name of a level, stops at the
    white space (or the end) behind it, stores the level, and leaves the
    rest of the text unread, with [eofbit] set only when the text ended with
    the name. *)
Theorem read_log_reads_one_word
    (ws rest : string) (v val : log)
    (Hws : all_space ws = true)
    (Hrest : word_ends rest = true) :
  read_log (of_string (ws +:+ canonical_name v +:+ rest)) val
  = Some ({| unread := rest; eofbit := is_empty rest; failbit := false;
             badbit := false |}, v).
Proof.
  destruct (canonical_name_shape v) as (Hns & Hnf & c & r & Hcr & _).
  unfold read_log.
  rewrite (extract_string_word
             (of_string (ws +:+ canonical_name v +:+ rest))
             ws (canonical_name v) rest eq_refl eq_refl Hws Hns);
    [|rewrite Hcr; discriminate|exact Hrest].
  now rewrite (scan_names_hit _ v val (c_str_nul_free _ Hnf)).
Qed.

Lemma read_log_reads_one_word_witness :
  all_space "  " = true /\
  word_ends " rest" = true /\
  read_log (of_string ("  " +:+ canonical_name TRACE +:+ " rest")) NONE
  = Some ({| unread := " rest"; eofbit := is_empty " rest"; failbit := false;
             badbit := false |}, TRACE).
Proof.
  split; [reflexivity|]. split; [reflexivity|].
  apply (read_log_reads_one_word "  " " rest" TRACE NONE); reflexivity.
Defined.

(** X5. On a stream that is not good (at its end, failed or bad),
    [operator>>] reads nothing and leaves the variable as it was; the stream
    only gains [failbit]. *)
Theorem read_log_on_stream_not_good (ins : istream) (val : log)
    (Hbad : good ins = false) :
  read_log ins val
  = Some ({| unread := unread ins; eofbit := eofbit ins; failbit := true;
             badbit := badbit ins |}, val).
Proof. unfold read_log, extract_string. now rewrite Hbad. Qed.

Lemma read_log_on_stream_not_good_witness :
  good {| unread := "INFO"; eofbit := false; failbit := true; badbit := false |}
  = false /\
  read_log {| unread := "INFO"; eofbit := false; failbit := true;
              badbit := false |} DEBUG
  = Some ({| unread := "INFO"; eofbit := false; failbit := true;
             badbit := false |}, DEBUG).
Proof.
  split; [reflexivity|].
  apply (read_log_on_stream_not_good
           {| unread := "INFO"; eofbit := false; failbit := true;
              badbit := false |} DEBUG).
  reflexivity.
Defined.

(** X6. On a new [std::istringstream], whose flags are the defaults, over
    a text that is empty or all white space, [operator>>] leaves the
    variable as it was and the stream at its end with [eofbit] and
    [failbit] set. *)
Theorem read_log_on_blank_input (text : string) (val : log)
    (Hblank : all_space text = true) :
  read_log (of_string text) val
  = Some ({| unread := EmptyString; eofbit := true; failbit := true;
             badbit := false |}, val).
Proof.
  unfold read_log, extract_string. cbn [good of_string eofbit failbit badbit
    unread orb negb].
  now rewrite (skip_ws_blank _ Hblank).
Qed.

Lemma read_log_on_blank_input_witness :
  all_space "   " = true /\
  read_log (of_string "   ") ERROR
  = Some ({| unread := EmptyString; eofbit := true; failbit := true;
             badbit := false |}, ERROR).
Proof.
  split; [reflexivity|].
  apply (read_log_on_blank_input "   " ERROR); reflexivity.
Defined.

(** X7. Two levels written with [operator<<], a space between them, are
    read back in order by two calls of [operator>>]; a third call finds the
    stream at its end, changes no value and sets [failbit]. *)
Theorem levels_written_are_read_back_in_order (a b val1 val2 val3 : log) :
  exists s1 s2 ins1 ins2 ins3,
    write_log EmptyString a = Some s1 /\
    write_log (s1 +:+ " ") b = Some s2 /\
    read_log (of_string s2) val1 = Some (ins1, a) /\
    read_log ins1 val2 = Some (ins2, b) /\
    read_log ins2 val3 = Some (ins3, val3) /\
    failbit ins2 = false /\ failbit ins3 = true.
Proof.
  destruct a, b; eexists _, _, _, _, _; repeat split.
Qed.

(** X8. [operator<<] writes different texts for different levels: from what
    was appended to a stream the level can be told. *)
Theorem write_log_injective (os : string) (a b : log)
    (Hsame : write_log os a = write_log os b) :
  a = b.
Proof.
  rewrite !write_log_name in Hsame. injection Hsame as H.
  apply (inj (String.append os)) in H.
  destruct a, b; try discriminate; reflexivity.
Qed.

Lemma write_log_injective_witness :
  write_log "level=" DBGTRACE = write_log "level=" TRACEALL /\
  DBGTRACE = TRACEALL.
Proof.
  split; [reflexivity|].
  apply (write_log_injective "level=" DBGTRACE TRACEALL). reflexivity.
Defined.

End LevelMore.

(** ** More on the macros and on loggers *)

Module MacroMore.

Import Logger Scenarios LoggerFacts MacroFacts LifetimeFacts.

(** A gated statement reports exactly when its threshold is reached. *)
Lemma gated_statement_reports threshold f l a texts w :
  reports (gated_statement threshold f l a texts) w
  <-> threshold <= effective_level w a.
Proof.
  unfold reports. rewrite gated_statement_run.
  destruct (Z.leb_spec threshold (effective_level w a)) as [Hle|Hlt].
  - split; [intros _; exact Hle|intros _].
    rewrite logger_statement_run. eexists _, _. split; reflexivity.
  - split; [|lia]. intros (w' & r & [= <-] & Hs).
    now apply snoc_not_same in Hs.
Qed.

(** X9. When a tiered macro reports, the report has severity [SC_INFO] and
    carries a tenth of the level the macro tested as its verbosity, which
    is therefore below the level the test was passed with. *)
Theorem tiered_report_verbosity_is_a_tenth
    (m : tiered_macro) (f : string) (l : Z) (a : tag_arg)
    (texts : list string) (w : World)
    (Hle : requested_level m <= effective_level w a) :
  exists w' r,
    run_tiered m f l a texts w = Some (tt, w') /\
    sink w' = sink w ++ [r] /\
    severity r = SC_INFO /\
    10 * verbosity r = requested_level m /\
    verbosity r < effective_level w a.
Proof.
  rewrite run_tiered_gated, gated_statement_run.
  destruct (Z.leb_spec (requested_level m) (effective_level w a)); [|lia].
  rewrite logger_statement_run. eexists _, _.
  split; [reflexivity|]. split; [reflexivity|]. split; [reflexivity|].
  cbn [verbosity].
  assert (E : 10 * (requested_level m / 10) = requested_level m)
    by (destruct m; reflexivity).
  assert (P : 0 < requested_level m) by (destruct m; reflexivity).
  split; [exact E|lia].
Qed.

Lemma tiered_report_verbosity_is_a_tenth_witness :
  requested_level MDEBUG <= effective_level quiet_world_at_high NoArg /\
  exists w' r,
    run_tiered MDEBUG "cpu.cpp" 40 NoArg ["pc="; "0x80"] quiet_world_at_high
    = Some (tt, w') /\
    sink w' = sink quiet_world_at_high ++ [r] /\
    severity r = SC_INFO /\
    10 * verbosity r = requested_level MDEBUG /\
    verbosity r < effective_level quiet_world_at_high NoArg.
Proof.
  split; [discriminate|].
  apply (tiered_report_verbosity_is_a_tenth MDEBUG "cpu.cpp" 40 NoArg
           ["pc="; "0x80"] quiet_world_at_high).
  discriminate.
Defined.

(** X10. A statement of any of the seven macros changes neither the
    verbosity level, nor the levels of the categories, nor the strings and
    loggers alive: its temporaries are gone when the statement ends. *)
Theorem macro_statement_frame
    (f : string) (l : Z) (a : tag_arg) (texts : list string) (w : World) :
  (forall m, exists w',
     run_tiered m f l a texts w = Some (tt, w') /\
     verbosity_level w' = verbosity_level w /\
     category_levels w' = category_levels w /\
     loggers w' = loggers w /\
     strings w' = strings w) /\
  (forall m, exists w',
     run_ungated m f l a texts w = Some (tt, w') /\
     verbosity_level w' = verbosity_level w /\
     category_levels w' = category_levels w /\
     loggers w' = loggers w /\
     strings w' = strings w).
Proof.
  split; intros m.
  - rewrite run_tiered_gated, gated_statement_run.
    destruct (requested_level m <=? effective_level w a).
    + rewrite logger_statement_run. eexists. repeat split.
    + exists w. repeat split.
  - rewrite run_ungated_run. eexists. repeat split.
Qed.

(** X11. The tiers are nested: in one state and for one category, where
    [SCCTRACEALL] reports [SCCTRACE] reports, where [SCCTRACE] reports
    [SCCDEBUG] reports, and where [SCCDEBUG] reports [SCCINFO] reports. *)
Theorem tiers_are_nested
    (f f' : string) (l l' : Z) (a : tag_arg) (texts texts' : list string)
    (w : World) :
  (reports (SCCTRACEALL f l a texts) w -> reports (SCCTRACE f' l' a texts') w) /\
  (reports (SCCTRACE f l a texts) w -> reports (SCCDEBUG f' l' a texts') w) /\
  (reports (SCCDEBUG f l a texts) w -> reports (SCCINFO f' l' a texts') w).
Proof.
  unfold SCCTRACEALL, SCCTRACE, SCCDEBUG, SCCINFO.
  rewrite !gated_statement_reports.
  unfold SC_DEBUG, SC_FULL, SC_HIGH, SC_MEDIUM. lia.
Qed.

(** X12. Tagging a logger and writing to its stream do not interfere: in
    either order they leave the same logger. *)
Theorem type_and_put_commute
    (w : World) (this : nat) (L : ScLogger) (c : type_call) (x : string)
    (alive : loggers w !! this = Some L) :
  type_then_put this c x w = put_then_type this c x w /\
  is_Some (type_then_put this c x w).
Proof.
  unfold type_then_put, put_then_type.
  rewrite (bind_run _ _ _ _ _ (do_type_run w this L alive c)).
  rewrite (bind_run _ _ _ _ _ (get_run _ this _ (lookup_insert_eq _ _ _))).
  rewrite (put_run _ this _ (lookup_insert_eq _ _ _)).
  rewrite (bind_run _ _ _ _ _ (get_run w this L alive)).
  rewrite (bind_run _ _ _ _ _ (put_run w this L alive x)).
  rewrite (do_type_run _ this _ (lookup_insert_eq _ _ _)).
  unfold with_loggers. cbn. rewrite !insert_insert_eq.
  split; [reflexivity|by eexists].
Qed.

Lemma type_and_put_commute_witness :
  loggers one_logger_world !! 0%nat = Some bus_logger /\
  type_then_put 0 (TypeCStr (Some 7%nat)) " done" one_logger_world
  = put_then_type 0 (TypeCStr (Some 7%nat)) " done" one_logger_world /\
  is_Some (type_then_put 0 (TypeCStr (Some 7%nat)) " done" one_logger_world).
Proof.
  split; [reflexivity|].
  apply (type_and_put_commute one_logger_world 0 bus_logger
           (TypeCStr (Some 7%nat)) " done").
  reflexivity.
Defined.

Lemma c_str_stops_at_nul (p q : string) :
  nul_free p = true -> c_str (p +:+ String NUL q) = p.
Proof.
  induction p as [|c p IH]; [reflexivity|]. simpl.
  intros [Hc Hp]%andb_prop. apply negb_true_iff in Hc.
  rewrite ?append_cons. simpl. rewrite Hc. now rewrite (IH Hp).
Qed.

Lemma concat_texts_app (xs ys : list string) :
  concat_texts (xs ++ ys) = concat_texts xs +:+ concat_texts ys.
Proof.
  induction xs as [|x xs IH]; [reflexivity|].
  change (concat_texts ((x :: xs) ++ ys)) with (x +:+ concat_texts (xs ++ ys)).
  change (concat_texts (x :: xs)) with (x +:+ concat_texts xs).
  now rewrite IH, append_assoc.
Qed.

(** X13. Nothing written behind a NUL character reaches the report: when
    the texts [before] and [a] hold no NUL, writing [before], then [a]
    followed by NUL and [b], then [after], reports the message [before]
    followed by [a], whatever [b] and [after] are. *)
Theorem nothing_behind_nul_is_reported
    (sev : sc_severity) (f : string) (l verb : Z)
    (before after : list string) (a b : string) (w : World)
    (Hbefore : forallb nul_free before = true)
    (Ha : nul_free a = true) :
  exists w',
    logger_lifetime sev f l verb
      (before ++ [a +:+ String NUL b] ++ after) w = Some (tt, w') /\
    sink w' = sink w ++
      [ {| severity := sev; msg_type := "SystemC";
           msg := concat_texts before +:+ a; verbosity := verb;
           file_name := f; line_number := l |} ].
Proof.
  rewrite logger_lifetime_run. eexists. split; [reflexivity|].
  cbn [sink]. do 3 f_equal.
  rewrite !concat_texts_app.
  change (concat_texts [a +:+ String NUL b]) with ((a +:+ String NUL b) +:+ EmptyString).
  rewrite append_empty_r, (append_assoc a), <- (append_assoc _ a).
  rewrite append_cons. apply c_str_stops_at_nul.
  now rewrite nul_free_append, (nul_free_concat _ Hbefore), Ha.
Qed.

Lemma nothing_behind_nul_is_reported_witness :
  forallb nul_free ["x="; "1"] = true /\
  nul_free ", y=" = true /\
  exists w',
    logger_lifetime SC_WARNING "dma.cpp" 9 SC_MEDIUM
      (["x="; "1"] ++ [", y=" +:+ String NUL "2"] ++ ["; end"]) quiet_world
    = Some (tt, w') /\
    sink w' = sink quiet_world ++
      [ {| severity := SC_WARNING; msg_type := "SystemC";
           msg := concat_texts ["x="; "1"] +:+ ", y="; verbosity := SC_MEDIUM;
           file_name := "dma.cpp"; line_number := 9 |} ].
Proof.
  split; [reflexivity|]. split; [reflexivity|].
  apply (nothing_behind_nul_is_reported SC_WARNING "dma.cpp" 9 SC_MEDIUM
           ["x="; "1"] ["; end"] ", y=" "2" quiet_world); reflexivity.
Defined.

(** X16. A tiered statement without a category is decided by the level of
    the report handler alone: it reports exactly when that level reaches the
    level the macro asks for, whatever levels are registered for
    categories. *)
Theorem untagged_statement_ignores_category_levels
    (m : tiered_macro) (f : string) (l : Z) (texts : list string)
    (w : World) (levels : gmap string Z) :
  (reports (run_tiered m f l NoArg texts) w
   <-> requested_level m <= verbosity_level w) /\
  (reports (run_tiered m f l NoArg texts) w
   <-> reports (run_tiered m f l NoArg texts) (with_category_levels w levels)).
Proof.
  rewrite run_tiered_gated, !gated_statement_reports. simpl. split; reflexivity.
Qed.

End MacroMore.
